(** * Weighted-indicator strategy and its backtest engine

    A shallow embedding of [src/project/src/strategies/indicators.ts]
    (the indicator library, lines 1-139, and the [WeightedStrategy] class
    that follows it in the same file).

    Numbers.  A JavaScript [number] is modelled as an exact rational in
    canonical form ([Qc]): sums, products and quotients are the exact ones,
    without rounding.  [NaN] and the infinities are outside the model, so a
    quotient whose divisor is zero and a read past the end of an array are
    the places where the model and the engine part ways; the statements
    below either hold whatever such a quotient is worth or carry the
    hypotheses that keep its divisor away from zero.  [Math.sqrt] has no rational
    counterpart: it is a parameter of the development ([Math_sqrt]), and
    [sqrt_approx] is the instance used to run the engine on concrete data.

    Rounding.  The engine computes in IEEE 754 binary64, the model in
    exact rationals.  The properties of the indicators proved below are
    those that a rounding does not change: comparisons, orderings that
    every rounding keeps, values reached without a rounding error (0, 100,
    a price itself), and which operations are applied to which elements;
    an identity that holds of exact quotients only is not stated.  The
    accounting identities of the loop are stated of the exact sums.  Where
    a rounding decides a question, the module [Binary64] has the functions
    concerned over the kernel's binary64 floats, and the question is
    settled there by evaluation.

    Candles.  An element of the candle array is [Some c] for a candle
    object and [None] for [null]/[undefined], on which the property reads
    of the step raise a [TypeError] (caught by the step's [try]).

    Pause.  [isPaused] is written from outside while the run awaits; what
    the run observes is, for each index, how many polls of the flag found
    it set before the step went on.  That number is the oracle [polls].

    Callback.  [onProgress] is an observer: the calls made to it are
    recorded in order, and it does not raise.  A recorded snapshot holds the
    trade log and the equity curve as they are when the call is made (the
    engine hands over the arrays themselves and keeps appending to them). *)

From Stdlib Require Import ZArith QArith Qcanon Qcabs List Bool Arith Lia Lqa.
From Stdlib Require PrimFloat.
Import ListNotations.

Local Open Scope Qc_scope.

(** ** Numbers *)

Notation num := Qc (only parsing).

Definition dec (n : Z) (d : positive) : num := Q2Qc (n # d).
Definition of_Z (z : Z) : num := Q2Qc (inject_Z z).
Definition of_nat (n : nat) : num := of_Z (Z.of_nat n).

Definition ltb (x y : num) : bool :=
  match x ?= y with Lt => true | _ => false end.
Definition gtb (x y : num) : bool := ltb y x.
Definition geb (x y : num) : bool :=
  match x ?= y with Lt => false | _ => true end.
Definition eqb (x y : num) : bool :=
  match x ?= y with Eq => true | _ => false end.

Definition Math_max (x y : num) : num := if ltb x y then y else x.
Definition Math_abs (x : num) : num := Qcabs x.
Definition Math_pow (x : num) (n : nat) : num := Qcpower x n.

(** A rational square root to eight decimal places, rounded down: the
    instance of [Math.sqrt] used when the engine is run on concrete data. *)
Definition sqrt_approx (x : num) : num :=
  let n := Qnum (this x) in
  let d := Zpos (Qden (this x)) in
  Q2Qc (Z.sqrt (n * d * 10 ^ 16) # Z.to_pos (d * 10 ^ 8)).

(** ** Arrays *)

(** [Array.prototype.slice(start, end)] with its relative (negative)
    indices; both bounds are clamped to the array. *)
Definition rel_index (len k : Z) : Z :=
  if (k <? 0)%Z then Z.max (len + k) 0 else Z.min k len.

Definition slice {A : Type} (l : list A) (start stop : Z) : list A :=
  let len := Z.of_nat (length l) in
  let k := rel_index len start in
  let fin := rel_index len stop in
  firstn (Z.to_nat (fin - k)) (skipn (Z.to_nat k) l).

(** [slice(start)]: up to the end of the array. *)
Definition slice_from {A : Type} (l : list A) (start : Z) : list A :=
  slice l start (Z.of_nat (length l)).

(** [arr.reduce((a, b) => a + b, 0)] *)
Definition sum (arr : list num) : num := fold_left Qcplus arr 0.

(** [arr[arr.length - 1]] *)
Definition last_elem (arr : list num) : num := last arr 0.

(** ** Indicator library (lines 1-139) *)

Inductive Signal : Set := buy | sell | neutral.

Record IndicatorResult : Type := mkIndicator {
  value : num;
  signal : Signal;
  weight : num
}.

Definition average (arr : list num) : num := sum arr / of_nat (length arr).

(** The loop of [calculateSimpleRSI]: one gain and one loss per step. *)
Fixpoint gains_losses (prev : num) (rest : list num) : list num * list num :=
  match rest with
  | [] => ([], [])
  | p :: rest' =>
      let difference := p - prev in
      let (gains, losses) := gains_losses p rest' in
      if geb difference 0
      then (difference :: gains, 0 :: losses)
      else (0 :: gains, Math_abs difference :: losses)
  end.

Definition rsi_series (prices : list num) : list num * list num :=
  match prices with
  | [] => ([], [])
  | p0 :: rest => gains_losses p0 rest
  end.

Definition calculateSimpleRSI (prices : list num) (period : Z) : num :=
  let (gains, losses) := rsi_series prices in
  let avgGain := average (slice_from gains (- period)) in
  let avgLoss := average (slice_from losses (- period)) in
  if eqb avgLoss 0 then dec 100 1
  else
    let rs := avgGain / avgLoss in
    dec 100 1 - dec 100 1 / (1 + rs).

Definition calculateEMA (prices : list num) (period : nat) : num :=
  let multiplier := dec 2 1 / (of_nat period + 1) in
  let ema := average (slice prices 0 (Z.of_nat period)) in
  fold_left (fun ema p => (p - ema) * multiplier + ema)
            (skipn period prices) ema.

Definition calculateSimpleMACD (prices : list num) : num :=
  let ema12 := calculateEMA prices 12 in
  let ema26 := calculateEMA prices 26 in
  ema12 - ema26.

Definition analyzeVolume (volumes : list num) : num :=
  let recentVolume := average (slice_from volumes (-5)) in
  let historicalVolume := average (slice volumes (-20) (-5)) in
  recentVolume / historicalVolume.

Definition calculateRSI (prices : list num) (period : Z) : IndicatorResult :=
  let rsiValue := calculateSimpleRSI prices period in
  {| value := rsiValue;
     signal := if gtb rsiValue (dec 70 1) then sell
               else if ltb rsiValue (dec 30 1) then buy else neutral;
     weight := dec 3 10 |}.

Definition calculateMACD (prices : list num) : IndicatorResult :=
  let macdValue := calculateSimpleMACD prices in
  {| value := macdValue;
     signal := if gtb macdValue 0 then buy
               else if ltb macdValue 0 then sell else neutral;
     weight := dec 25 100 |}.

Definition calculateVolumeSignal (volumes : list num) : IndicatorResult :=
  let volumeSignal := analyzeVolume volumes in
  {| value := volumeSignal;
     signal := if gtb volumeSignal (dec 15 10) then buy
               else if ltb volumeSignal (dec 5 10) then sell else neutral;
     weight := dec 2 10 |}.

(** ** The relative strength index in binary64

    The same functions as above with the arithmetic of the engine itself:
    [+], [-], [/], [Math.abs] and the comparisons of IEEE 754 binary64,
    as the kernel's primitive floats compute them.  An array length is the
    double it converts to (exact below 2^53). *)
Module Binary64.
Import PrimFloat.
Local Open Scope float_scope.

Record IndicatorResult : Type := mkIndicator {
  value : float;
  signal : Signal;
  weight : float
}.

Fixpoint of_nat (n : nat) : float :=
  match n with
  | O => 0
  | S n' => of_nat n' + 1
  end.

Definition sum (arr : list float) : float := fold_left add arr 0.

Definition average (arr : list float) : float :=
  sum arr / of_nat (length arr).

Fixpoint gains_losses (prev : float) (rest : list float)
  : list float * list float :=
  match rest with
  | [] => ([], [])
  | p :: rest' =>
      let difference := p - prev in
      let (gains, losses) := gains_losses p rest' in
      if 0 <=? difference
      then (difference :: gains, 0 :: losses)
      else (0 :: gains, abs difference :: losses)
  end.

Definition rsi_series (prices : list float) : list float * list float :=
  match prices with
  | [] => ([], [])
  | p0 :: rest => gains_losses p0 rest
  end.

Definition calculateSimpleRSI (prices : list float) (period : Z) : float :=
  let (gains, losses) := rsi_series prices in
  let avgGain := average (slice_from gains (- period)) in
  let avgLoss := average (slice_from losses (- period)) in
  if avgLoss =? 0 then 100
  else
    let rs := avgGain / avgLoss in
    100 - 100 / (1 + rs).

Definition calculateRSI (prices : list float) (period : Z) : IndicatorResult :=
  let rsiValue := calculateSimpleRSI prices period in
  {| value := rsiValue;
     signal := if 70 <? rsiValue then sell
               else if rsiValue <? 30 then buy else neutral;
     weight := 0.3 |}.


End Binary64.

(** ** Strategy types (the interfaces of the second part of the file) *)

Record StrategyResult : Type := mkStrategyResult {
  totalSignal : num;
  recommendation : Signal;
  rsi : IndicatorResult;
  macd : IndicatorResult;
  bollinger : IndicatorResult;
  volume : IndicatorResult
}.

Record MarketData : Type := mkMarketData {
  prices : list num;
  volumes : list num;
  md_timestamp : Z
}.

(** A candle as the engine reads it: [timestamp], and [close] and [volume]
    after [parseFloat]. *)
Record Candle : Type := mkCandle {
  timestamp : Z;
  close : num;
  c_volume : num
}.

(** The [lastAnalysis] / [indicators] snapshot. *)
Record Analysis : Type := mkAnalysis {
  a_rsi : num;
  a_macd : num;
  a_bollingerPosition : num;
  a_volumeSignal : num;
  a_totalSignal : num
}.

Inductive TradeType : Set := tbuy | tsell.

Record Trade : Type := mkTrade {
  t_timestamp : Z;
  type : TradeType;
  price : num;
  profit : option num;
  size : num;
  indicators : option Analysis
}.

Record BacktestProgress : Type := mkProgress {
  currentCandle : nat;
  totalCandles : nat;
  p_trades : list Trade;
  p_equity : list num;
  p_initialCapital : num;
  p_currentCapital : num;
  p_isPaused : bool;
  lastAnalysis : option Analysis
}.

Record BacktestResult : Type := mkResult {
  totalTrades : nat;
  winningTrades : nat;
  losingTrades : nat;
  winRate : num;
  r_profit : num;
  r_maxDrawdown : num;
  sharpeRatio : num;
  trades : list Trade;
  equity : list num
}.

Inductive Position : Set := none | long.

(** The fields of a [WeightedStrategy] instance that the run reads and
    writes ([isPaused] is the oracle [polls], see the header). *)
Record WeightedStrategy : Type := mkStrategy {
  rsiPeriod : Z;
  signalThreshold : num;
  position : Position;
  entryPrice : num;
  positionSize : num
}.

(** [new WeightedStrategy(rsiPeriod, signalThreshold)] *)
Definition new_WeightedStrategy (rsiPeriod : Z) (signalThreshold : num)
  : WeightedStrategy :=
  {| rsiPeriod := rsiPeriod; signalThreshold := signalThreshold;
     position := none; entryPrice := 0; positionSize := 0 |}.

(** The [lastAnalysis] object of a step (lines 278-284). *)
Definition analysis_of (result : StrategyResult) : Analysis :=
  {| a_rsi := value (rsi result); a_macd := value (macd result);
     a_bollingerPosition := value (bollinger result);
     a_volumeSignal := value (volume result);
     a_totalSignal := totalSignal result |}.

(** The mapping of a signal to +1, -1 or 0 ([analyze], lines 414-415). *)
Definition signalValue (s : Signal) : num :=
  match s with buy => 1 | sell => - (1) | neutral => 0 end.

(** ** [backtest] (lines 218-400): the parts without [Math.sqrt] *)

(** The locals of [backtest] together with the instance ([self]) and the
    calls made to [onProgress] so far ([emitted], oldest first). *)
Record Loop : Type := mkLoop {
  self : WeightedStrategy;
  l_trades : list Trade;
  l_equity : list num;
  currentCapital : num;
  maxCapital : num;
  maxDrawdown : num;
  l_winningTrades : nat;
  l_losingTrades : nat;
  emitted : list BacktestProgress
}.

(** [onProgress?.(p)]: a call when the callback was supplied. *)
Definition emit (onProgress : bool) (p : BacktestProgress) (st : Loop) : Loop :=
  if onProgress then
    {| self := self st; l_trades := l_trades st; l_equity := l_equity st;
       currentCapital := currentCapital st; maxCapital := maxCapital st;
       maxDrawdown := maxDrawdown st;
       l_winningTrades := l_winningTrades st;
       l_losingTrades := l_losingTrades st;
       emitted := emitted st ++ [p] |}
  else st.

(** [while (this.isPaused) { await ...; onProgress?.({... isPaused: true}) }]
    for the [n] polls that find the flag set. *)
Fixpoint paused_polls (onProgress : bool) (total : nat) (initialCapital : num)
    (i n : nat) (st : Loop) : Loop :=
  match n with
  | O => st
  | S n' =>
      paused_polls onProgress total initialCapital i n'
        (emit onProgress
           {| currentCandle := i; totalCandles := total;
              p_trades := l_trades st; p_equity := l_equity st;
              p_initialCapital := initialCapital;
              p_currentCapital := currentCapital st;
              p_isPaused := true; lastAnalysis := None |} st)
  end.

(** [window.map(d => parseFloat(d.f))]: raises on a [null] element. *)
Fixpoint map_field (f : Candle -> num) (window : list (option Candle))
  : option (list num) :=
  match window with
  | [] => Some []
  | None :: _ => None
  | Some d :: rest =>
      match map_field f rest with
      | Some xs => Some (f d :: xs)
      | None => None
      end
  end.

(** The trading logic of one step (lines 287-339). *)
Definition trade (ts : Z) (result : StrategyResult) (currentPrice : num)
    (last : Analysis) (st : Loop) : Loop :=
  let this := self st in
  match position this with
  | none =>
      if gtb (totalSignal result) (signalThreshold this) then
        let positionSize := (currentCapital st * dec 95 100) / currentPrice in
        let this' :=
          {| rsiPeriod := rsiPeriod this;
             signalThreshold := signalThreshold this;
             position := long; entryPrice := currentPrice;
             positionSize := positionSize |} in
        {| self := this';
           l_trades := l_trades st ++
             [{| t_timestamp := ts; type := tbuy; price := currentPrice;
                 profit := None; size := positionSize;
                 indicators := Some last |}];
           l_equity := l_equity st;
           currentCapital := currentCapital st; maxCapital := maxCapital st;
           maxDrawdown := maxDrawdown st;
           l_winningTrades := l_winningTrades st;
           l_losingTrades := l_losingTrades st;
           emitted := emitted st |}
      else st
  | long =>
      if ltb (totalSignal result) (- signalThreshold this) then
        let exitPrice := currentPrice in
        let profit := (exitPrice - entryPrice this) * positionSize this in
        let currentCapital := currentCapital st + profit in
        let win := gtb profit 0 in
        let this' :=
          {| rsiPeriod := rsiPeriod this;
             signalThreshold := signalThreshold this;
             position := none; entryPrice := entryPrice this;
             positionSize := 0 |} in
        let maxCapital := Math_max (maxCapital st) currentCapital in
        let drawdown := (maxCapital - currentCapital) / maxCapital in
        {| self := this';
           l_trades := l_trades st ++
             [{| t_timestamp := ts; type := tsell; price := exitPrice;
                 profit := Some profit; size := positionSize this;
                 indicators := Some last |}];
           l_equity := l_equity st;
           currentCapital := currentCapital; maxCapital := maxCapital;
           maxDrawdown := Math_max (maxDrawdown st) drawdown;
           l_winningTrades :=
             if win then S (l_winningTrades st) else l_winningTrades st;
           l_losingTrades :=
             if win then l_losingTrades st else S (l_losingTrades st);
           emitted := emitted st |}
      else st
  end.

(** [equity.push(currentCapital)] *)
Definition push_equity (st : Loop) : Loop :=
  {| self := self st; l_trades := l_trades st;
     l_equity := l_equity st ++ [currentCapital st];
     currentCapital := currentCapital st; maxCapital := maxCapital st;
     maxDrawdown := maxDrawdown st;
     l_winningTrades := l_winningTrades st;
     l_losingTrades := l_losingTrades st;
     emitted := emitted st |}.

(** [equity.map((val, i) => i === 0 ? 0 : (val - equity[i-1]) / equity[i-1])] *)
Fixpoint returns_from (prev : num) (rest : list num) : list num :=
  match rest with
  | [] => []
  | val :: rest' => (val - prev) / prev :: returns_from val rest'
  end.

Definition returns (equity : list num) : list num :=
  match equity with
  | [] => []
  | e0 :: rest => 0 :: returns_from e0 rest
  end.

Definition averageReturn (equity : list num) : num :=
  sum (returns equity) / of_nat (length (returns equity)).

(** The [data] argument: [null] or [undefined], another value that is not
    an array (its [length] can be read), or an array. *)
Inductive JsValue : Type :=
  | Nullish
  | NotArray
  | Array (elements : list (option Candle)).

(** The two ways a call is rejected: the read of [data.length] in the
    opening log line (lines 223-228) raises a [TypeError] on [null] and
    [undefined]; the guard of lines 230-232 throws
    [Error('Invalid historical data')]. *)
Inductive BacktestError : Set := TypeError | InvalidHistoricalData.

(** What a call of [backtest] leaves behind: the rejection or the result,
    the instance afterwards, and the calls made to [onProgress]. *)
Record Outcome : Type := mkOutcome {
  returned : BacktestError + BacktestResult;
  instance : WeightedStrategy;
  progress : list BacktestProgress
}.


(** ** Concrete data *)

Module Scenario.

(** Candles with the given closes, volume 1000 and timestamps 0, 1, ... *)
Fixpoint candles_from (t : Z) (closes : list Z) : list (option Candle) :=
  match closes with
  | [] => []
  | c :: rest =>
      Some {| timestamp := t; close := of_Z c; c_volume := of_Z 1000 |}
      :: candles_from (t + 1) rest
  end.

Definition rising : list Z := map (fun i => 115 + Z.of_nat i)%Z (seq 0 26).
Definition falling : list Z := map (fun i => 140 - Z.of_nat i)%Z (seq 0 26).

(** 115, 116, ..., 140, then 100: a buy at index 26. *)
Definition dip : list (option Candle) := candles_from 0 (rising ++ [100%Z]).

(** [dip], then 99, 98, ..., 70, then 110: a buy at 100 and a sell at 110. *)
Definition round_trip : list (option Candle) :=
  candles_from 0
    (rising ++ [100%Z] ++ map (fun k => 99 - Z.of_nat k)%Z (seq 0 30)
     ++ [110%Z]).

(** 140, 139, ..., 115, then 160: a sell signal at index 26. *)
Definition spike : list (option Candle) := candles_from 0 (falling ++ [160%Z]).

Definition strategy : WeightedStrategy := new_WeightedStrategy 14 (dec 6 10).
Definition never_paused : nat -> nat := fun _ => O.

End Scenario.

(** ** The parts that go through [Math.sqrt] *)

Section Engine.

(** [Math.sqrt] *)
Variable Math_sqrt : num -> num.

Definition calculateStandardDeviation (values : list num) : num :=
  let avg := average values in
  let squareDiffs := map (fun v => Math_pow (v - avg) 2) values in
  Math_sqrt (average squareDiffs).

Record Bands : Type := mkBands { upper : num; lower : num; middle : num }.

Definition calculateSimpleBollinger (prices : list num) : Bands :=
  let period := 20%Z in
  let standardDeviations := dec 2 1 in
  let sma := average (slice_from prices (- period)) in
  let stdDev := calculateStandardDeviation (slice_from prices (- period)) in
  {| upper := sma + standardDeviations * stdDev;
     lower := sma - standardDeviations * stdDev;
     middle := sma |}.

Definition calculateBollingerBands (prices : list num) : IndicatorResult :=
  let b := calculateSimpleBollinger prices in
  let currentPrice := last_elem prices in
  {| value := currentPrice;
     signal := if gtb currentPrice (upper b) then sell
               else if ltb currentPrice (lower b) then buy else neutral;
     weight := dec 25 100 |}.


(** [analyze] (lines 402-434) *)

Definition analyze (self : WeightedStrategy) (data : MarketData)
  : StrategyResult :=
  let rsi := calculateRSI (prices data) (rsiPeriod self) in
  let macd := calculateMACD (prices data) in
  let bollinger := calculateBollingerBands (prices data) in
  let volume := calculateVolumeSignal (volumes data) in
  let signals := [rsi; macd; bollinger; volume] in
  let totalSignal :=
    fold_left (fun total indicator =>
                 total + signalValue (signal indicator) * weight indicator)
              signals 0 in
  let recommendation :=
    if gtb totalSignal (signalThreshold self) then buy
    else if ltb totalSignal (- signalThreshold self) then sell
    else neutral in
  {| totalSignal := totalSignal; recommendation := recommendation;
     rsi := rsi; macd := macd; bollinger := bollinger; volume := volume |}.

(** The part of the step after the pause loop, when nothing raises. *)
Definition process (onProgress : bool) (data : list (option Candle))
    (initialCapital : num) (i : nat) (ts : Z) (prices volumes : list num)
    (st : Loop) : Loop :=
  let result :=
    analyze (self st)
      {| prices := prices; volumes := volumes; md_timestamp := ts |} in
  let currentPrice := last_elem prices in
  let last := analysis_of result in
  let st1 := push_equity (trade ts result currentPrice last st) in
  if (i mod 50 =? 0)%nat || (0 <? length (l_trades st1))%nat then
    emit onProgress
      {| currentCandle := i; totalCandles := length data;
         p_trades := l_trades st1; p_equity := l_equity st1;
         p_initialCapital := initialCapital;
         p_currentCapital := currentCapital st1;
         p_isPaused := false; lastAnalysis := Some last |} st1
  else st1.

(** What the reads of the step yield: the closes and volumes of the window
    [data.slice(0, i + 1)] and [data[i].timestamp], or [None] when one of
    them raises. *)
Definition read_window (data : list (option Candle)) (i : nat)
  : option (Z * list num * list num) :=
  let window := slice data 0 (Z.of_nat i + 1) in
  match map_field close window, map_field c_volume window, nth_error data i with
  | Some prices, Some volumes, Some (Some d) =>
      Some (timestamp d, prices, volumes)
  | _, _, _ => None
  end.

(** The body of the [for] loop at index [i]: the [try] block, and the
    [catch] that skips the candle. *)
Definition step (onProgress : bool) (polls : nat -> nat)
    (data : list (option Candle)) (initialCapital : num)
    (st : Loop) (i : nat) : Loop :=
  let st0 :=
    paused_polls onProgress (length data) initialCapital i (polls i) st in
  match read_window data i with
  | Some (ts, prices, volumes) =>
      process onProgress data initialCapital i ts prices volumes st0
  | None => st0
  end.

(** [Math.max(this.rsiPeriod + 1, 26)] *)
Definition minCandles (this : WeightedStrategy) : nat :=
  Z.to_nat (Z.max (rsiPeriod this + 1) 26).

(** The indices the [for] loop visits. *)
Definition indices (this : WeightedStrategy) (data : list (option Candle))
  : list nat :=
  seq (minCandles this) (length data - minCandles this).

Definition init (this : WeightedStrategy) (initialCapital : num) : Loop :=
  {| self := this; l_trades := []; l_equity := [initialCapital];
     currentCapital := initialCapital; maxCapital := initialCapital;
     maxDrawdown := 0; l_winningTrades := 0; l_losingTrades := 0;
     emitted := [] |}.

(** The state after the loop has gone through the indices [idx]. *)
Definition run (onProgress : bool) (polls : nat -> nat)
    (data : list (option Candle)) (initialCapital : num)
    (idx : list nat) (st : Loop) : Loop :=
  fold_left (step onProgress polls data initialCapital) idx st.

Definition stdDev (equity : list num) : num :=
  let avg := averageReturn equity in
  Math_sqrt
    (fold_left (fun a b => a + Math_pow (b - avg) 2) (returns equity) 0
     / of_nat (length (returns equity))).

Definition sharpe (equity : list num) : num :=
  if eqb (stdDev equity) 0 then 0
  else (averageReturn equity / stdDev equity) * Math_sqrt (dec 252 1).

(** Lines 367-399: the summary. *)
Definition summary (initialCapital : num) (st : Loop) : BacktestResult :=
  let totalTrades := (l_winningTrades st + l_losingTrades st)%nat in
  {| totalTrades := totalTrades;
     winningTrades := l_winningTrades st;
     losingTrades := l_losingTrades st;
     winRate :=
       if (0 <? totalTrades)%nat
       then (of_nat (l_winningTrades st) / of_nat totalTrades) * dec 100 1
       else 0;
     r_profit := currentCapital st - initialCapital;
     r_maxDrawdown := maxDrawdown st * dec 100 1;
     sharpeRatio := sharpe (l_equity st);
     trades := l_trades st;
     equity := l_equity st |}.

Definition backtest (this : WeightedStrategy) (data : JsValue)
    (initialCapital : num) (onProgress : bool) (polls : nat -> nat)
  : Outcome :=
  match data with
  | Nullish =>
      {| returned := inl TypeError; instance := this; progress := [] |}
  | NotArray | Array [] =>
      {| returned := inl InvalidHistoricalData; instance := this;
         progress := [] |}
  | Array elements =>
      let st :=
        run onProgress polls elements initialCapital
            (indices this elements) (init this initialCapital) in
      {| returned := inr (summary initialCapital st);
         instance := self st; progress := emitted st |}
  end.



(** ** The Sharpe ratio in the words of the specification *)

(** The per-step returns [(equity[i] - equity[i-1]) / equity[i-1]] for
    [i >= 1]. *)
Definition step_returns (equity : list num) : list num :=
  map (fun i => (nth i equity 0 - nth (i - 1) equity 0) / nth (i - 1) equity 0)
      (seq 1 (length equity - 1)).

Definition mean (xs : list num) : num := sum xs / of_nat (length xs).

(** Population standard deviation. *)
Definition population_std (xs : list num) : num :=
  Math_sqrt (sum (map (fun x => Math_pow (x - mean xs) 2) xs)
             / of_nat (length xs)).

(** The ratio of a series of returns, annualised; 0 when the deviation is. *)
Definition sharpe_of (rs : list num) : num :=
  if eqb (population_std rs) 0 then 0
  else (mean rs / population_std rs) * Math_sqrt (dec 252 1).

(** ** Vocabulary of the statements *)

(** Every element of the array is a candle object. *)
Definition well_formed (data : list (option Candle)) : Prop :=
  Forall (fun d => d <> None) data.

(** Two loop states with the same instance and locals (they may differ in
    the calls made to [onProgress]). *)
Definition same_locals (a b : Loop) : Prop :=
  self a = self b /\ l_trades a = l_trades b /\ l_equity a = l_equity b /\
  currentCapital a = currentCapital b /\ maxCapital a = maxCapital b /\
  maxDrawdown a = maxDrawdown b /\
  l_winningTrades a = l_winningTrades b /\
  l_losingTrades a = l_losingTrades b.

(** The state of the loop once the first [k] indices have been visited. *)
Definition state_after (this : WeightedStrategy) (onProgress : bool)
    (polls : nat -> nat) (data : list (option Candle)) (initialCapital : num)
    (k : nat) : Loop :=
  run onProgress polls data initialCapital
      (firstn k (indices this data)) (init this initialCapital).

(** The locals after the trading logic and the push of a step whose reads
    gave [ts], [prices] and [volumes]. *)
Definition traded (ts : Z) (prices volumes : list num) (st : Loop) : Loop :=
  let result :=
    analyze (self st)
      {| prices := prices; volumes := volumes; md_timestamp := ts |} in
  push_equity (trade ts result (last_elem prices) (analysis_of result) st).

(** What the trading logic of a step may do to the instance and the
    locals, from [st] to [st']: nothing, a buy, or a sell. *)
Definition no_trade (st st' : Loop) : Prop :=
  self st' = self st /\ l_trades st' = l_trades st /\
  currentCapital st' = currentCapital st /\
  maxCapital st' = maxCapital st /\ maxDrawdown st' = maxDrawdown st /\
  l_winningTrades st' = l_winningTrades st /\
  l_losingTrades st' = l_losingTrades st.

Definition bought (p : num) (st st' : Loop) : Prop :=
  exists t, l_trades st' = l_trades st ++ [t] /\
    type t = tbuy /\ profit t = None /\ price t = p /\
    size t = currentCapital st * dec 95 100 / p /\
    position (self st') = long /\ entryPrice (self st') = p /\
    positionSize (self st') = size t /\
    rsiPeriod (self st') = rsiPeriod (self st) /\
    signalThreshold (self st') = signalThreshold (self st) /\
    currentCapital st' = currentCapital st /\
    maxCapital st' = maxCapital st /\ maxDrawdown st' = maxDrawdown st /\
    l_winningTrades st' = l_winningTrades st /\
    l_losingTrades st' = l_losingTrades st.

Definition sold (p : num) (st st' : Loop) : Prop :=
  exists t pr, l_trades st' = l_trades st ++ [t] /\
    pr = (p - entryPrice (self st)) * positionSize (self st) /\
    type t = tsell /\ profit t = Some pr /\ price t = p /\
    size t = positionSize (self st) /\
    position (self st') = none /\ positionSize (self st') = 0 /\
    rsiPeriod (self st') = rsiPeriod (self st) /\
    signalThreshold (self st') = signalThreshold (self st) /\
    currentCapital st' = currentCapital st + pr /\
    maxCapital st' = Math_max (maxCapital st) (currentCapital st') /\
    maxDrawdown st' =
      Math_max (maxDrawdown st)
               ((maxCapital st' - currentCapital st') / maxCapital st') /\
    (0 < pr -> l_winningTrades st' = S (l_winningTrades st) /\
               l_losingTrades st' = l_losingTrades st) /\
    (pr <= 0 -> l_winningTrades st' = l_winningTrades st /\
                l_losingTrades st' = S (l_losingTrades st)).

Definition trade_outcome (total p : num) (st st' : Loop) : Prop :=
  match position (self st) with
  | none =>
      if gtb total (signalThreshold (self st)) then bought p st st'
      else no_trade st st'
  | long =>
      if ltb total (- signalThreshold (self st)) then sold p st st'
      else no_trade st st'
  end.

(** The trade log started flat: buys and sells in turn, the position being
    the one the last trade left. *)
Inductive log_ok : list Trade -> Position -> Prop :=
  | log_empty : log_ok [] none
  | log_buy : forall l t,
      log_ok l none -> type t = tbuy -> log_ok (l ++ [t]) long
  | log_sell : forall l t,
      log_ok l long -> type t = tsell -> log_ok (l ++ [t]) none.

Definition is_type (ty : TradeType) (t : Trade) : bool :=
  match ty, type t with
  | tbuy, tbuy | tsell, tsell => true
  | _, _ => false
  end.

Definition count_type (ty : TradeType) (l : list Trade) : nat :=
  length (filter (is_type ty) l).

(** Buys not yet matched by a sell. *)
Definition open_positions (l : list Trade) : Z :=
  (Z.of_nat (count_type tbuy l) - Z.of_nat (count_type tsell l))%Z.

(** The profit a trade realized: that of a sell, nothing for a buy. *)
Definition realized (t : Trade) : num :=
  match profit t with Some pr => pr | None => 0 end.

Definition realized_profit (l : list Trade) : num := sum (map realized l).

(** A trade that realized a positive profit. *)
Definition winning (t : Trade) : bool := gtb (realized t) 0.

(** The bookkeeping of the loop: the two counters count the sells, and the
    capital, now and at each equity entry, is the initial capital plus the
    profits realized by the sells made until then. *)
Definition accounting (initialCapital : num) (st : Loop) : Prop :=
  (l_winningTrades st + l_losingTrades st = count_type tsell (l_trades st))%nat /\
  l_winningTrades st = length (filter winning (l_trades st)) /\
  currentCapital st = initialCapital + realized_profit (l_trades st) /\
  Forall (fun t => type t = tbuy -> profit t = None) (l_trades st) /\
  Forall (fun e => exists n, (n <= length (l_trades st))%nat /\
            e = initialCapital + realized_profit (firstn n (l_trades st)))
         (l_equity st).

(** The object handed to [onProgress] at index [i], from the locals. *)
Definition snapshot (data : list (option Candle)) (initialCapital : num)
    (i : nat) (paused : bool) (last : option Analysis) (st : Loop)
  : BacktestProgress :=
  {| currentCandle := i; totalCandles := length data;
     p_trades := l_trades st; p_equity := l_equity st;
     p_initialCapital := initialCapital;
     p_currentCapital := currentCapital st;
     p_isPaused := paused; lastAnalysis := last |}.

(** The calls that name the index [i] and have [isPaused] as given. *)
Definition calls_at (i : nat) (paused : bool) (calls : list BacktestProgress)
  : list BacktestProgress :=
  filter (fun p => (currentCandle p =? i)%nat && Bool.eqb (p_isPaused p) paused)
         calls.

(** The calls to a supplied [onProgress] made by the step at index [i]. *)
Definition step_events (polls : nat -> nat) (data : list (option Candle))
    (initialCapital : num) (st : Loop) (i : nat) : list BacktestProgress :=
  skipn (length (emitted st)) (emitted (step true polls data initialCapital st i)).

(** The step at index [i] went through: none of its reads raised. *)
Definition succeeds (data : list (option Candle)) (i : nat) : bool :=
  match read_window data i with Some _ => true | None => false end.

(** ** Vocabulary of the further properties *)


(** The smoothing factor of [calculateEMA]: [2 / (period + 1)]. *)
Definition multiplier (period : nat) : num := dec 2 1 / (of_nat period + 1).

(** A series that never falls, and one that falls at every step. *)
Fixpoint never_falls (prev : num) (rest : list num) : Prop :=
  match rest with
  | [] => True
  | p :: rest' => prev <= p /\ never_falls p rest'
  end.

Fixpoint always_falls (prev : num) (rest : list num) : Prop :=
  match rest with
  | [] => True
  | p :: rest' => p < prev /\ always_falls p rest'
  end.


(** The four signals that [analyze] weighs, and how many of them are [s]. *)
Definition signals_of (r : StrategyResult) : list Signal :=
  [signal (rsi r); signal (macd r); signal (bollinger r); signal (volume r)].

Definition same_signal (s t : Signal) : bool :=
  match s, t with
  | buy, buy | sell, sell | neutral, neutral => true
  | _, _ => false
  end.

Definition count_signal (s : Signal) (l : list Signal) : nat :=
  length (filter (same_signal s) l).




(** * Properties *)

(** A statement depends on [Math_sqrt] only if it mentions it. *)
Set Default Proof Using "Type".

(** ** Numbers: the comparisons, and the passage to [Q] *)

Lemma ltb_lt (x y : num) : ltb x y = true <-> x < y.
Proof.
  unfold ltb. rewrite Qclt_alt. destruct (x ?= y); split; congruence.
Qed.

Lemma eqb_eq (x y : num) : eqb x y = true <-> x = y.
Proof.
  unfold eqb. rewrite Qceq_alt. destruct (x ?= y); split; congruence.
Qed.

Lemma geb_le (x y : num) : geb x y = true <-> y <= x.
Proof.
  unfold geb. split.
  - intros H. apply Qcnot_lt_le. rewrite Qclt_alt.
    destruct (x ?= y); congruence.
  - intros H. destruct (x ?= y) eqn:E; trivial.
    apply Qclt_alt in E. exfalso. exact (Qcle_not_lt _ _ H E).
Qed.

Lemma ltb_ge (x y : num) : ltb x y = false <-> y <= x.
Proof.
  rewrite <- geb_le. unfold ltb, geb. destruct (x ?= y); split; congruence.
Qed.

Lemma this_plus (x y : Qc) : (this (x + y) == this x + this y)%Q.
Proof. unfold Qcplus, Q2Qc, this at 1. apply Qred_correct. Qed.

Lemma this_mult (x y : Qc) : (this (x * y) == this x * this y)%Q.
Proof. unfold Qcmult, Q2Qc, this at 1. apply Qred_correct. Qed.

Lemma this_opp (x : Qc) : (this (- x) == - this x)%Q.
Proof. unfold Qcopp, Q2Qc, this at 1. apply Qred_correct. Qed.

Lemma this_minus (x y : Qc) : (this (x - y) == this x - this y)%Q.
Proof. unfold Qcminus. rewrite this_plus, this_opp. reflexivity. Qed.

Lemma this_inv (x : Qc) : (this (/ x) == / this x)%Q.
Proof. unfold Qcinv, Q2Qc, this at 1. apply Qred_correct. Qed.

Lemma this_div (x y : Qc) : (this (x / y) == this x / this y)%Q.
Proof. unfold Qcdiv. rewrite this_mult, this_inv. reflexivity. Qed.

Lemma this_Q2Qc (q : Q) : (this (Q2Qc q) == q)%Q.
Proof. unfold Q2Qc, this. apply Qred_correct. Qed.

Lemma this_eq (x y : Qc) : x = y -> (this x == this y)%Q.
Proof. intros ->. reflexivity. Qed.

(** Moves a goal on [Qc] and the hypotheses it needs to [Q], where [lra]
    applies. *)
Ltac to_Q :=
  unfold dec, of_nat, of_Z in *;
  repeat match goal with
  | |- @eq Qc _ _ => apply Qc_is_canon
  | H : @eq Qc _ _ |- _ => apply this_eq in H
  end;
  unfold Qcle, Qclt in *;
  repeat first
    [ progress rewrite ?this_plus, ?this_mult, ?this_opp, ?this_minus,
        ?this_inv, ?this_div, ?this_Q2Qc in * ].

(** A closed comparison or equation of rationals, by evaluation. *)
Ltac by_eval :=
  first [ apply Qc_is_canon; vm_compute; reflexivity
        | apply ltb_lt; vm_compute; reflexivity
        | apply geb_le; vm_compute; reflexivity ].

(** ** The composite signal (C6) *)

Lemma weighted_sum_range (s1 s2 s3 s4 : Signal) :
  let t := 0 + signalValue s1 * dec 3 10 + signalValue s2 * dec 25 100
             + signalValue s3 * dec 25 100 + signalValue s4 * dec 2 10 in
  - (1) <= t /\ t <= 1.
Proof.
  destruct s1, s2, s3, s4; split; apply geb_le; vm_compute; reflexivity.
Qed.

(** C6.  Whatever the strategy and the market data, the four indicator
    results that [analyze] returns carry the weights 0.30, 0.25, 0.25 and
    0.20, which sum to exactly 1; [totalSignal] is the sum over the four of
    weight times the signal mapped to +1 (buy), -1 (sell) or 0 (neutral);
    and it lies in [-1, 1]. *)
Theorem analyze_weights_and_range :
  forall (this : WeightedStrategy) (data : MarketData),
    let r := analyze this data in
    (weight (rsi r) = dec 30 100 /\ weight (macd r) = dec 25 100 /\
     weight (bollinger r) = dec 25 100 /\ weight (volume r) = dec 20 100) /\
    (weight (rsi r) + weight (macd r) + weight (bollinger r)
       + weight (volume r) = 1) /\
    (totalSignal r =
       0 + signalValue (signal (rsi r)) * weight (rsi r)
         + signalValue (signal (macd r)) * weight (macd r)
         + signalValue (signal (bollinger r)) * weight (bollinger r)
         + signalValue (signal (volume r)) * weight (volume r)) /\
    (- (1) <= totalSignal r /\ totalSignal r <= 1).
Proof.
  intros this data r. subst r. unfold analyze.
  cbn [fold_left rsi macd bollinger volume totalSignal].
  unfold calculateRSI, calculateMACD, calculateBollingerBands,
    calculateVolumeSignal.
  cbn [signal weight].
  split; [|split; [|split]].
  - repeat split; by_eval.
  - by_eval.
  - reflexivity.
  - apply weighted_sum_range.
Qed.

(** ** Arrays: slices and sums *)

Lemma Forall_firstn {A : Type} (P : A -> Prop) (n : nat) (l : list A) :
  Forall P l -> Forall P (firstn n l).
Proof.
  intros H. rewrite <- (firstn_skipn n l) in H.
  apply Forall_app in H. tauto.
Qed.

Lemma Forall_skipn {A : Type} (P : A -> Prop) (n : nat) (l : list A) :
  Forall P l -> Forall P (skipn n l).
Proof.
  intros H. rewrite <- (firstn_skipn n l) in H.
  apply Forall_app in H. tauto.
Qed.

Lemma Forall_slice {A : Type} (P : A -> Prop) (l : list A) (a b : Z) :
  Forall P l -> Forall P (slice l a b).
Proof.
  intros H. unfold slice. now apply Forall_firstn, Forall_skipn.
Qed.

(** [slice(-p)] keeps the last [p] elements, or all of them. *)
Lemma length_slice_last {A : Type} (l : list A) (p : Z) :
  (1 <= p)%Z ->
  length (slice_from l (- p)) = Nat.min (Z.to_nat p) (length l).
Proof.
  intros Hp. unfold slice_from, slice, rel_index.
  destruct (- p <? 0)%Z eqn:E1; [|apply Z.ltb_ge in E1; lia].
  destruct (Z.of_nat (length l) <? 0)%Z eqn:E2; [apply Z.ltb_lt in E2; lia|].
  rewrite length_firstn, length_skipn. lia.
Qed.

(** [slice(0, n)] is the prefix of length [n]. *)
Lemma slice_prefix {A : Type} (l : list A) (n : nat) :
  slice l 0 (Z.of_nat n) = firstn n l.
Proof.
  unfold slice, rel_index. cbn [Z.ltb Z.compare].
  destruct (Z.of_nat n <? 0)%Z eqn:E; [apply Z.ltb_lt in E; lia|].
  rewrite (Z.min_l 0) by lia. cbn [Z.to_nat skipn]. rewrite Z.sub_0_r.
  destruct (Nat.le_gt_cases n (length l)) as [Hn|Hn].
  - rewrite Z.min_l by lia. now rewrite Nat2Z.id.
  - rewrite Z.min_r by lia. rewrite Nat2Z.id.
    rewrite firstn_all. symmetry. apply firstn_all2. lia.
Qed.

Lemma fold_sum (l : list num) (a : num) : fold_left Qcplus l a = a + sum l.
Proof.
  unfold sum. revert a. induction l as [|x l IH]; intros a; cbn [fold_left].
  - ring.
  - rewrite IH, (IH (0 + x)). ring.
Qed.

Lemma sum_cons (x : num) (l : list num) : sum (x :: l) = x + sum l.
Proof. unfold sum at 1. cbn [fold_left]. rewrite fold_sum. ring. Qed.

Lemma sum_nonneg (l : list num) : Forall (fun x => 0 <= x) l -> 0 <= sum l.
Proof.
  induction 1 as [|x l Hx _ IH].
  - apply Qcle_refl.
  - rewrite sum_cons. to_Q. lra.
Qed.

Lemma sum_zero_iff (l : list num) :
  Forall (fun x => 0 <= x) l -> (sum l = 0 <-> Forall (fun x => x = 0) l).
Proof.
  induction 1 as [|x l Hx Hl IH].
  - split; [constructor | reflexivity].
  - rewrite sum_cons. pose proof (sum_nonneg l Hl) as Hs. split.
    + intros H0.
      assert (x = 0 /\ sum l = 0) as [Ex El] by (split; to_Q; lra).
      constructor; [exact Ex | now apply IH].
    + intros H0. inversion H0 as [|? ? Ex El]; subst.
      apply IH in El. rewrite El. ring.
Qed.

(** ** The relative strength index (C5) *)

Lemma gains_losses_length (prev : num) (rest : list num) :
  length (fst (gains_losses prev rest)) = length rest /\
  length (snd (gains_losses prev rest)) = length rest.
Proof.
  revert prev. induction rest as [|p rest IH]; intros prev; cbn;
    [split; reflexivity|].
  specialize (IH p). destruct (gains_losses p rest) as [g l].
  destruct (geb (p - prev) 0); cbn in IH |- *; lia.
Qed.


(** The loss of step [i] is the fall of the price from [i] to [i+1]. *)
Lemma losses_nth (prices : list num) (i : nat) :
  (S i < length prices)%nat ->
  nth i (snd (rsi_series prices)) 0 =
  Math_max 0 (nth i prices 0 - nth (S i) prices 0).
Proof.
  destruct prices as [|p0 rest]; [cbn; lia|]. cbn [rsi_series].
  revert p0 i. induction rest as [|p rest IH]; intros p0 i Hi; [cbn in Hi; lia|].
  cbn [gains_losses]. specialize (IH p).
  destruct (gains_losses p rest) as [g l].
  destruct i as [|i].
  - cbn [nth]. unfold Math_max.
    destruct (geb (p - p0) 0) eqn:E; cbn [snd nth].
    + apply geb_le in E.
      destruct (ltb 0 (p0 - p)) eqn:F; trivial.
      apply ltb_lt in F. to_Q. lra.
    + assert (p - p0 < 0) as Hlt.
      { apply Qcnot_le_lt. intros H. apply geb_le in H. congruence. }
      assert (ltb 0 (p0 - p) = true) as ->.
      { apply ltb_lt. to_Q. lra. }
      unfold Math_abs. rewrite Qcabs_neg by (apply Qclt_le_weak; exact Hlt).
      ring.
  - cbn in Hi. specialize (IH i ltac:(cbn; lia)).
    destruct (geb (p - p0) 0); cbn [snd nth] in *; exact IH.
Qed.


Lemma average_zero_iff (l : list num) :
  l <> [] -> Forall (fun x => 0 <= x) l ->
  (average l = 0 <-> Forall (fun x => x = 0) l).
Proof.
  intros Hne H. rewrite <- (sum_zero_iff l H). unfold average.
  assert (of_nat (length l) <> 0) as Hn.
  { destruct l as [|x l]; [congruence|]. intros E.
    unfold of_nat, of_Z in E. apply this_eq in E. rewrite !this_Q2Qc in E.
    unfold inject_Z, Qeq in E. cbn in E. lia. }
  split.
  - intros E. rewrite <- (Qcmult_div_r (sum l) _ Hn), E. ring.
  - intros ->. unfold Qcdiv. ring.
Qed.


(** ** The loop: what a step does to the locals *)

Lemma same_locals_refl (a : Loop) : same_locals a a.
Proof. repeat split. Qed.

Lemma same_locals_trans (a b c : Loop) :
  same_locals a b -> same_locals b c -> same_locals a c.
Proof.
  unfold same_locals. intros H1 H2.
  decompose [and] H1; decompose [and] H2; repeat split; congruence.
Qed.

Lemma emit_locals (onProgress : bool) (p : BacktestProgress) (st : Loop) :
  same_locals (emit onProgress p st) st.
Proof. destruct onProgress; repeat split. Qed.

Lemma paused_polls_locals (onProgress : bool) (total : nat) (cap : num)
    (i n : nat) (st : Loop) :
  same_locals (paused_polls onProgress total cap i n st) st.
Proof.
  revert st. induction n as [|n IH]; intros st; cbn [paused_polls].
  - apply same_locals_refl.
  - eapply same_locals_trans; [apply IH | apply emit_locals].
Qed.

Lemma trade_locals (ts : Z) (result : StrategyResult) (p : num)
    (last : Analysis) (a b : Loop) :
  same_locals a b ->
  same_locals (trade ts result p last a) (trade ts result p last b).
Proof.
  unfold same_locals. intros (E1 & E2 & E3 & E4 & E5 & E6 & E7 & E8).
  unfold trade. rewrite E1, E2, E4, E5, E6, E7, E8.
  destruct (position (self b));
    match goal with |- context [if ?c then _ else _] => destruct c end;
    cbn; repeat split; assumption.
Qed.

Lemma push_equity_locals (a b : Loop) :
  same_locals a b -> same_locals (push_equity a) (push_equity b).
Proof.
  unfold same_locals, push_equity. cbn. intros H. decompose [and] H.
  repeat split; congruence.
Qed.

Lemma traded_locals (ts : Z) (prices volumes : list num) (a b : Loop) :
  same_locals a b ->
  same_locals (traded ts prices volumes a) (traded ts prices volumes b).
Proof.
  intros H. unfold traded. replace (self a) with (self b) by (symmetry; apply H).
  now apply push_equity_locals, trade_locals.
Qed.

Lemma process_locals (onProgress : bool) (data : list (option Candle))
    (cap : num) (i : nat) (ts : Z) (prices volumes : list num) (st : Loop) :
  same_locals (process onProgress data cap i ts prices volumes st)
              (traded ts prices volumes st).
Proof.
  unfold process. fold (traded ts prices volumes st).
  destruct (_ || _); [apply emit_locals | apply same_locals_refl].
Qed.

(** The locals after the step at index [i]: untouched when a read raises,
    traded and pushed otherwise. *)
Lemma step_locals (onProgress : bool) (polls : nat -> nat)
    (data : list (option Candle)) (cap : num) (st : Loop) (i : nat) :
  match read_window data i with
  | Some (ts, prices, volumes) =>
      same_locals (step onProgress polls data cap st i)
                  (traded ts prices volumes st)
  | None => same_locals (step onProgress polls data cap st i) st
  end.
Proof.
  unfold step. destruct (read_window data i) as [[[ts prices] volumes]|].
  - eapply same_locals_trans; [apply process_locals|].
    apply traded_locals, paused_polls_locals.
  - apply paused_polls_locals.
Qed.


Lemma trade_equity (ts : Z) (result : StrategyResult) (p : num)
    (last : Analysis) (st : Loop) :
  l_equity (trade ts result p last st) = l_equity st.
Proof.
  unfold trade. destruct (position (self st));
    match goal with |- context [if ?c then _ else _] => destruct c end;
    reflexivity.
Qed.

Lemma traded_equity (ts : Z) (prices volumes : list num) (st : Loop) :
  l_equity (traded ts prices volumes st)
  = l_equity st ++ [currentCapital (traded ts prices volumes st)].
Proof. unfold traded, push_equity. cbn. now rewrite trade_equity. Qed.

(** The equity curve after a step: one more entry, the capital after the
    step, unless a read raised. *)
Lemma step_equity (onProgress : bool) (polls : nat -> nat)
    (data : list (option Candle)) (cap : num) (st : Loop) (i : nat) :
  let st' := step onProgress polls data cap st i in
  match read_window data i with
  | Some _ => l_equity st' = l_equity st ++ [currentCapital st']
  | None => l_equity st' = l_equity st
  end.
Proof.
  intros st'. subst st'. pose proof (step_locals onProgress polls data cap st i) as H.
  destruct (read_window data i) as [[[ts prices] volumes]|].
  - destruct H as (_ & _ & E3 & E4 & _). rewrite E3, E4. apply traded_equity.
  - apply H.
Qed.

(** ** Reads of a well-formed array never raise *)

Lemma map_field_some (f : Candle -> num) (window : list (option Candle)) :
  well_formed window -> exists xs, map_field f window = Some xs.
Proof.
  induction 1 as [|d window Hd _ [xs IH]]; cbn.
  - now exists [].
  - destruct d as [d|]; [|congruence]. rewrite IH. now eexists.
Qed.

Lemma read_window_some (data : list (option Candle)) (i : nat) :
  well_formed data -> (i < length data)%nat -> read_window data i <> None.
Proof.
  intros Hwf Hi. unfold read_window.
  assert (Hw : well_formed (slice data 0 (Z.of_nat i + 1)))
    by now apply Forall_slice.
  destruct (map_field_some close _ Hw) as [ps ->].
  destruct (map_field_some c_volume _ Hw) as [vs ->].
  destruct (nth_error data i) as [d|] eqn:E.
  - destruct d as [d|]; [discriminate|].
    apply nth_error_In in E. unfold well_formed in Hwf.
    rewrite Forall_forall in Hwf. now apply Hwf in E.
  - apply nth_error_None in E. lia.
Qed.

(** ** The equity curve (C2) *)

Lemma run_equity_length (onProgress : bool) (polls : nat -> nat)
    (data : list (option Candle)) (cap : num) (idx : list nat) (st : Loop) :
  Forall (fun i => read_window data i <> None) idx ->
  let st' := run onProgress polls data cap idx st in
  length (l_equity st') = (length (l_equity st) + length idx)%nat /\
  exists rest, l_equity st' = l_equity st ++ rest.
Proof.
  intros H. revert st. induction H as [|i idx Hi _ IH]; intros st; cbn.
  - split; [lia | exists []; now rewrite app_nil_r].
  - specialize (IH (step onProgress polls data cap st i)).
    cbn in IH. destruct IH as [IHlen [rest IHpre]].
    pose proof (step_equity onProgress polls data cap st i) as Hs. cbn in Hs.
    destruct (read_window data i); [|congruence].
    unfold run in *. rewrite IHlen, IHpre, Hs, length_app. cbn. split; [lia|].
    rewrite <- app_assoc. now eexists.
Qed.

(** C2.  For a non-empty array of candle objects (no [null] element) whose
    length is at least the warm-up index [max(rsiPeriod + 1, 26)],
    [backtest] returns a result, no visited step raises, the equity curve
    has exactly [1 + (candleCount - warmupIndex)] entries, and its first
    entry is the initial capital. *)
Theorem backtest_equity_length :
  forall (this : WeightedStrategy) (data : list (option Candle))
         (initialCapital : num) (onProgress : bool) (polls : nat -> nat),
    data <> [] -> well_formed data ->
    let warmupIndex := Z.max (rsiPeriod this + 1) 26 in
    (warmupIndex <= Z.of_nat (length data))%Z ->
    exists r,
      returned (backtest this (Array data) initialCapital onProgress polls)
        = inr r /\
      Forall (fun i => read_window data i <> None) (indices this data) /\
      Z.of_nat (length (equity r))
        = (1 + (Z.of_nat (length data) - warmupIndex))%Z /\
      nth_error (equity r) 0 = Some initialCapital.
Proof.
  intros this data cap cb polls Hne Hwf warmupIndex Hlen.
  assert (Hreads : Forall (fun i => read_window data i <> None)
                          (indices this data)).
  { apply Forall_forall. intros i Hi. apply read_window_some; trivial.
    unfold indices in Hi. apply in_seq in Hi. lia. }
  destruct data as [|d data]; [congruence|].
  eexists. split; [reflexivity|]. split; [exact Hreads|].
  cbn [equity summary].
  destruct (run_equity_length cb polls (d :: data) cap _ (init this cap) Hreads)
    as [Hl [rest Hpre]].
  split.
  - rewrite Hl. unfold indices. rewrite length_seq. cbn [init l_equity length].
    unfold minCandles. subst warmupIndex. cbn [length] in Hlen. lia.
  - rewrite Hpre. reflexivity.
Qed.

(** ** Invalid input (C7) *)

(** What a call on invalid data does.  [backtest] rejects the call if and
    only if the data is not an array or is an empty array.  The error is
    the invalid-data error of the guard, except on [null] and [undefined],
    where the log line before the guard raises first.  In every such case
    no result (no trade log, no equity curve) is returned, no call to the
    progress callback has been made, and the instance, its position state
    included, is as it was. *)
Theorem backtest_invalid_input :
  forall (this : WeightedStrategy) (data : JsValue) (initialCapital : num)
         (onProgress : bool) (polls : nat -> nat),
    let out := backtest this data initialCapital onProgress polls in
    let invalid := (forall elements, data <> Array elements) \/ data = Array [] in
    ((exists e, returned out = inl e) <-> invalid) /\
    (returned out = inl InvalidHistoricalData
       <-> (data = NotArray \/ data = Array [])) /\
    (returned out = inl TypeError <-> data = Nullish) /\
    (invalid ->
       (forall r, returned out <> inr r) /\
       progress out = [] /\ instance out = this /\
       position (instance out) = position this /\
       entryPrice (instance out) = entryPrice this /\
       positionSize (instance out) = positionSize this).
Proof.
  intros this data cap cb polls out invalid. subst out invalid.
  destruct data as [| |[|d data]]; cbn.
  - repeat split; try discriminate; eauto; try (intros [H|H]; discriminate).
    left. discriminate.
  - repeat split; try discriminate; eauto.
    left. discriminate.
  - repeat split; try discriminate; eauto.
  - split; [|split; [|split]].
    + split; [intros [e H]; discriminate|].
      intros [H|H]; [exfalso; exact (H _ eq_refl) | discriminate].
    + split; [discriminate | intros [H|H]; discriminate].
    + split; discriminate.
    + intros [H|H]; [exfalso; exact (H _ eq_refl) | discriminate].
Qed.

(** C7.  The defect: on [null] and [undefined] the guard of lines 230-232
    is never reached.  The opening log line reads [data.length] first
    (line 226), which raises a [TypeError]; the invalid-data error that
    the guard throws for any other value that is not a non-empty array is
    not the error of this call.  The rest is as for the guard: no result,
    no call to the callback, the instance as it was. *)
Theorem backtest_null_data_type_error :
  forall (this : WeightedStrategy) (initialCapital : num)
         (onProgress : bool) (polls : nat -> nat),
    let out := backtest this Nullish initialCapital onProgress polls in
    returned out = inl TypeError /\
    returned out <> inl InvalidHistoricalData /\
    returned (backtest this NotArray initialCapital onProgress polls)
      = inl InvalidHistoricalData /\
    returned (backtest this (Array []) initialCapital onProgress polls)
      = inl InvalidHistoricalData /\
    progress out = [] /\ instance out = this.
Proof.
  intros this cap cb polls out. subst out. cbn.
  split; [reflexivity|]. split; [discriminate|].
  split; [reflexivity|]. split; [reflexivity|]. split; reflexivity.
Qed.

(** ** The outcomes of a step *)

(** The outcome of the trading logic, on the instance and the locals. *)
Lemma trade_cases (ts : Z) (result : StrategyResult) (p : num)
    (last : Analysis) (st : Loop) :
  trade_outcome (totalSignal result) p st (trade ts result p last st).
Proof.
  unfold trade_outcome, trade.
  destruct (position (self st)) eqn:Epos.
  - destruct (gtb _ _) eqn:E; [|repeat split].
    eexists. split; [reflexivity|]. cbn. repeat split.
  - destruct (ltb _ _) eqn:E; [|repeat split].
    eexists; eexists. split; [reflexivity|]. split; [reflexivity|].
    cbn. unfold gtb. repeat split.
    + apply ltb_lt in H. now rewrite H.
    + apply ltb_lt in H. now rewrite H.
    + apply ltb_ge in H. now rewrite H.
    + apply ltb_ge in H. now rewrite H.
Qed.

Lemma trade_outcome_locals (total p : num) (st a b : Loop) :
  same_locals a b -> trade_outcome total p st b -> trade_outcome total p st a.
Proof.
  intros (E1 & E2 & E3 & E4 & E5 & E6 & E7 & E8).
  unfold trade_outcome, no_trade, bought, sold.
  rewrite E1, E2, E4, E5, E6, E7, E8. trivial.
Qed.

(** What the step at index [i] does: nothing when a read raises; otherwise
    the outcome of the trading logic on the analysis of the window, at the
    close of candle [i]. *)
Lemma step_cases (onProgress : bool) (polls : nat -> nat)
    (data : list (option Candle)) (cap : num) (st : Loop) (i : nat) :
  let st' := step onProgress polls data cap st i in
  match read_window data i with
  | Some (ts, prices, volumes) =>
      trade_outcome
        (totalSignal
           (analyze (self st)
              {| prices := prices; volumes := volumes; md_timestamp := ts |}))
        (last_elem prices) st st'
  | None => no_trade st st'
  end.
Proof.
  intros st'. subst st'.
  pose proof (step_locals onProgress polls data cap st i) as H.
  destruct (read_window data i) as [[[ts prices] volumes]|].
  - eapply trade_outcome_locals; [exact H|]. unfold traded.
    pose proof (trade_cases ts
      (analyze (self st)
         {| prices := prices; volumes := volumes; md_timestamp := ts |})
      (last_elem prices)
      (analysis_of (analyze (self st)
         {| prices := prices; volumes := volumes; md_timestamp := ts |}))
      st) as T.
    unfold trade_outcome, no_trade, bought, sold, push_equity in *.
    cbn [self l_trades currentCapital maxCapital maxDrawdown
         l_winningTrades l_losingTrades]. exact T.
  - destruct H as (E1 & E2 & E3 & E4 & E5 & E6 & E7 & E8). repeat split; assumption.
Qed.

(** Whatever the step, one of the three outcomes. *)
Lemma step_trichotomy (onProgress : bool) (polls : nat -> nat)
    (data : list (option Candle)) (cap : num) (st : Loop) (i : nat) :
  let st' := step onProgress polls data cap st i in
  no_trade st st' \/
  (position (self st) = none /\ exists p, bought p st st') \/
  (position (self st) = long /\ exists p, sold p st st').
Proof.
  intros st'. pose proof (step_cases onProgress polls data cap st i) as H.
  cbn in H. fold st' in H.
  destruct (read_window data i) as [[[ts prices] volumes]|]; [|now left].
  unfold trade_outcome in H. destruct (position (self st)).
  - destruct (gtb _ _); [right; left; eauto | now left].
  - destruct (ltb _ _); [right; right; eauto | now left].
Qed.

(** ** The loop, index by index *)

Lemma firstn_snoc {A : Type} (l : list A) (k : nat) (x : A) :
  nth_error l k = Some x -> firstn (S k) l = firstn k l ++ [x].
Proof.
  revert k. induction l as [|a l IH]; intros [|k] H; cbn in *; try discriminate.
  - now inversion H.
  - f_equal. now apply IH.
Qed.

Lemma state_after_S (this : WeightedStrategy) (onProgress : bool)
    (polls : nat -> nat) (data : list (option Candle)) (cap : num) (k : nat) :
  state_after this onProgress polls data cap (S k) =
  match nth_error (indices this data) k with
  | Some i =>
      step onProgress polls data cap
           (state_after this onProgress polls data cap k) i
  | None => state_after this onProgress polls data cap k
  end.
Proof.
  unfold state_after, run.
  destruct (nth_error (indices this data) k) as [i|] eqn:E.
  - rewrite (firstn_snoc _ _ _ E), fold_left_app. reflexivity.
  - apply nth_error_None in E. now rewrite !firstn_all2 by lia.
Qed.

Lemma state_after_all (this : WeightedStrategy) (onProgress : bool)
    (polls : nat -> nat) (data : list (option Candle)) (cap : num) :
  state_after this onProgress polls data cap (length (indices this data)) =
  run onProgress polls data cap (indices this data) (init this cap).
Proof. unfold state_after. now rewrite firstn_all. Qed.

(** An invariant of the steps holds after any number of them. *)
Lemma state_after_ind (P : Loop -> Prop) (this : WeightedStrategy)
    (onProgress : bool) (polls : nat -> nat) (data : list (option Candle))
    (cap : num) :
  P (init this cap) ->
  (forall st i, P st -> P (step onProgress polls data cap st i)) ->
  forall k, P (state_after this onProgress polls data cap k).
Proof.
  intros H0 Hstep. induction k as [|k IH].
  - exact H0.
  - rewrite state_after_S. destruct (nth_error _ k); auto.
Qed.

(** ** The position invariant (C3) *)

Lemma step_log_ok (onProgress : bool) (polls : nat -> nat)
    (data : list (option Candle)) (cap : num) (st : Loop) (i : nat) :
  log_ok (l_trades st) (position (self st)) ->
  let st' := step onProgress polls data cap st i in
  log_ok (l_trades st') (position (self st')).
Proof.
  intros H st'.
  destruct (step_trichotomy onProgress polls data cap st i) as [N|[[P B]|[P S]]];
    fold st' in N || fold st' in B || fold st' in S.
  - destruct N as (E1 & E2 & _). now rewrite E1, E2.
  - destruct B as (p & t & Et & Ety & _ & _ & _ & Epos & _).
    rewrite Et, Epos. apply log_buy; [now rewrite <- P | exact Ety].
  - destruct S as (p & t & pr & Et & _ & Ety & _ & _ & _ & Epos & _).
    rewrite Et, Epos. apply log_sell; [now rewrite <- P | exact Ety].
Qed.

Lemma log_ok_parity (l : list Trade) (p : Position) :
  log_ok l p ->
  Nat.even (length l) = match p with none => true | long => false end.
Proof.
  induction 1 as [|l t _ IH _|l t _ IH _]; trivial;
    rewrite length_app, Nat.add_comm; cbn [length Nat.add];
    rewrite Nat.even_succ, <- Nat.negb_even, IH; reflexivity.
Qed.

Lemma log_ok_alternates (l : list Trade) (p : Position) :
  log_ok l p ->
  forall j t, nth_error l j = Some t ->
    type t = if Nat.even j then tbuy else tsell.
Proof.
  induction 1 as [|l t H IH Ety|l t H IH Ety]; intros j u Hj.
  - destruct j; discriminate.
  - destruct (Nat.lt_ge_cases j (length l)) as [Hlt|Hge].
    + rewrite nth_error_app1 in Hj by exact Hlt. now apply IH.
    + assert (j = length l) as ->.
      { assert (j < length (l ++ [t]))%nat as Hb
          by (apply nth_error_Some; congruence).
        rewrite length_app in Hb. cbn in Hb. lia. }
      rewrite nth_error_app2, Nat.sub_diag in Hj by lia.
      inversion Hj; subst. now rewrite (log_ok_parity _ _ H).
  - destruct (Nat.lt_ge_cases j (length l)) as [Hlt|Hge].
    + rewrite nth_error_app1 in Hj by exact Hlt. now apply IH.
    + assert (j = length l) as ->.
      { assert (j < length (l ++ [t]))%nat as Hb
          by (apply nth_error_Some; congruence).
        rewrite length_app in Hb. cbn in Hb. lia. }
      rewrite nth_error_app2, Nat.sub_diag in Hj by lia.
      inversion Hj; subst. now rewrite (log_ok_parity _ _ H).
Qed.

Lemma count_type_snoc (ty : TradeType) (l : list Trade) (t : Trade) :
  count_type ty (l ++ [t]) =
  (count_type ty l + if is_type ty t then 1 else 0)%nat.
Proof.
  unfold count_type. rewrite filter_app, length_app. cbn.
  destruct (is_type ty t); reflexivity.
Qed.

Lemma log_ok_open (l : list Trade) (p : Position) :
  log_ok l p ->
  open_positions l = match p with none => 0%Z | long => 1%Z end.
Proof.
  unfold open_positions.
  induction 1 as [|l t _ IH Ety|l t _ IH Ety]; trivial;
    rewrite !count_type_snoc; unfold is_type; rewrite Ety; lia.
Qed.

Lemma log_ok_prefix (l : list Trade) (p : Position) :
  log_ok l p ->
  forall j, (j <= length l)%nat ->
    log_ok (firstn j l) (if Nat.even j then none else long).
Proof.
  induction 1 as [|l t H IH Ety|l t H IH Ety]; intros j Hj.
  - cbn in Hj. assert (j = 0)%nat as -> by lia. constructor.
  - rewrite length_app in Hj. cbn in Hj.
    destruct (Nat.eq_dec j (S (length l))) as [->|Hne].
    + rewrite firstn_all2 by (rewrite length_app; cbn; lia).
      rewrite Nat.even_succ, <- Nat.negb_even, (log_ok_parity _ _ H).
      now apply log_buy.
    + rewrite firstn_app. replace (j - length l)%nat with 0%nat by lia.
      cbn [firstn]. rewrite app_nil_r. apply IH. lia.
  - rewrite length_app in Hj. cbn in Hj.
    destruct (Nat.eq_dec j (S (length l))) as [->|Hne].
    + rewrite firstn_all2 by (rewrite length_app; cbn; lia).
      rewrite Nat.even_succ, <- Nat.negb_even, (log_ok_parity _ _ H).
      now apply log_sell.
    + rewrite firstn_app. replace (j - length l)%nat with 0%nat by lia.
      cbn [firstn]. rewrite app_nil_r. apply IH. lia.
Qed.

Lemma state_after_log_ok (this : WeightedStrategy) (onProgress : bool)
    (polls : nat -> nat) (data : list (option Candle)) (cap : num) (k : nat) :
  position this = none ->
  let st := state_after this onProgress polls data cap k in
  log_ok (l_trades st) (position (self st)).
Proof.
  intros Hflat. cbn.
  apply (state_after_ind (fun st => log_ok (l_trades st) (position (self st)))).
  - cbn. rewrite Hflat. constructor.
  - intros st i H. now apply step_log_ok.
Qed.

Lemma backtest_trades (this : WeightedStrategy) (onProgress : bool)
    (polls : nat -> nat) (data : list (option Candle)) (cap : num)
    (r : BacktestResult) :
  returned (backtest this (Array data) cap onProgress polls) = inr r ->
  r = summary cap
        (state_after this onProgress polls data cap
           (length (indices this data))).
Proof.
  rewrite state_after_all. destruct data as [|d data]; cbn; [discriminate|].
  intros H. now inversion H.
Qed.

(** C3.  In a run that starts flat, after any number [k] of steps: the
    trade log is buy, sell, buy, sell, ... (the trade at an even place is a
    buy, at an odd place a sell); the number of buys not matched by a sell
    is 1 when the instance is long and 0 when it is flat, so at most one
    position is open; every sell comes right after a buy that no earlier
    sell had matched; and the next step appends at most one trade, a buy
    only if the position was [none], a sell only if it was [long].  The
    log that [backtest] returns is the log after the last step. *)
Theorem position_invariant :
  forall (this : WeightedStrategy) (onProgress : bool) (polls : nat -> nat)
         (data : list (option Candle)) (initialCapital : num) (k : nat),
    position this = none ->
    let st := state_after this onProgress polls data initialCapital k in
    let st' := state_after this onProgress polls data initialCapital (S k) in
    (forall j t, nth_error (l_trades st) j = Some t ->
       type t = if Nat.even j then tbuy else tsell) /\
    (open_positions (l_trades st)
       = match position (self st) with none => 0 | long => 1 end)%Z /\
    (0 <= open_positions (l_trades st) <= 1)%Z /\
    (forall j t, nth_error (l_trades st) j = Some t -> type t = tsell ->
       (1 <= j)%nat /\
       open_positions (firstn j (l_trades st)) = 1%Z /\
       exists b, nth_error (l_trades st) (j - 1) = Some b /\ type b = tbuy) /\
    (no_trade st st' \/
     (position (self st) = none /\ position (self st') = long /\
      exists t, l_trades st' = l_trades st ++ [t] /\ type t = tbuy) \/
     (position (self st) = long /\ position (self st') = none /\
      exists t, l_trades st' = l_trades st ++ [t] /\ type t = tsell)) /\
    (forall r,
       returned (backtest this (Array data) initialCapital onProgress polls)
         = inr r ->
       trades r =
       l_trades (state_after this onProgress polls data initialCapital
                   (length (indices this data)))).
Proof.
  intros this cb polls data cap k Hflat st st'.
  pose proof (state_after_log_ok this cb polls data cap k Hflat) as Hok.
  cbn in Hok. fold st in Hok.
  pose proof (log_ok_alternates _ _ Hok) as Halt.
  pose proof (log_ok_open _ _ Hok) as Hopen.
  split; [exact Halt|]. split; [exact Hopen|].
  split; [rewrite Hopen; destruct (position (self st)); lia|].
  split; [|split].
  - intros j t Hj Ety.
    assert (Hodd : Nat.even j = false).
    { specialize (Halt j t Hj). destruct (Nat.even j); congruence. }
    assert (Hlt : (j < length (l_trades st))%nat)
      by (apply nth_error_Some; congruence).
    destruct j as [|j]; [discriminate|].
    split; [lia|]. split.
    + rewrite (log_ok_open _ _ (log_ok_prefix _ _ Hok (S j) ltac:(lia))).
      now rewrite Hodd.
    + cbn [Nat.sub]. rewrite Nat.sub_0_r.
      destruct (nth_error (l_trades st) j) as [b|] eqn:Eb.
      * exists b. split; trivial. rewrite (Halt j b Eb).
        rewrite Nat.even_succ, <- Nat.negb_even in Hodd.
        destruct (Nat.even j); [reflexivity | discriminate].
      * apply nth_error_None in Eb. lia.
  - subst st'. rewrite state_after_S. fold st.
    destruct (nth_error (indices this data) k) as [i|]; [|left; repeat split].
    destruct (step_trichotomy cb polls data cap st i) as [N|[[P B]|[P S]]].
    + now left.
    + right; left. destruct B as (p & t & Et & Ety & _ & _ & _ & Epos & _).
      eauto.
    + right; right.
      destruct S as (p & t & pr & Et & _ & Ety & _ & _ & _ & Epos & _).
      eauto.
  - intros r Hr. apply backtest_trades in Hr. now subst r.
Qed.

(** ** Trade counts and capital (C10) *)

Lemma sum_app (l1 l2 : list num) : sum (l1 ++ l2) = sum l1 + sum l2.
Proof.
  unfold sum at 1. rewrite fold_left_app, fold_sum. reflexivity.
Qed.

Lemma realized_profit_snoc (l : list Trade) (t : Trade) :
  realized_profit (l ++ [t]) = realized_profit l + realized t.
Proof.
  unfold realized_profit. rewrite map_app, sum_app. cbn [map].
  rewrite sum_cons. unfold sum. cbn. ring.
Qed.


Lemma no_sell_no_profit (l : list Trade) :
  Forall (fun t => type t = tbuy -> profit t = None) l ->
  count_type tsell l = 0%nat ->
  forall n, realized_profit (firstn n l) = 0.
Proof.
  unfold count_type, realized_profit.
  induction 1 as [|t l Ht _ IH]; intros Hc n.
  - now destruct n.
  - cbn in Hc. unfold is_type in Hc. destruct n as [|n]; [reflexivity|].
    cbn [firstn map]. rewrite sum_cons. unfold realized at 1.
    destruct (type t); [|discriminate].
    rewrite Ht by reflexivity. rewrite IH by exact Hc. ring.
Qed.

Lemma accounting_equity_grow (cap : num) (l : list Trade) (t : Trade)
    (eq : list num) :
  Forall (fun e => exists n, (n <= length l)%nat /\
            e = cap + realized_profit (firstn n l)) eq ->
  Forall (fun e => exists n, (n <= length (l ++ [t]))%nat /\
            e = cap + realized_profit (firstn n (l ++ [t]))) eq.
Proof.
  apply Forall_impl. intros e (n & Hn & He). exists n.
  rewrite length_app, firstn_app. split; [lia|].
  replace (n - length l)%nat with 0%nat by lia.
  cbn [firstn]. now rewrite app_nil_r.
Qed.

Lemma step_accounting (onProgress : bool) (polls : nat -> nat)
    (data : list (option Candle)) (cap0 cap : num) (st : Loop) (i : nat) :
  accounting cap0 st -> accounting cap0 (step onProgress polls data cap st i).
Proof.
  intros (Hc & Hwin & Hcap & Hbuy & Heq).
  pose proof (step_equity onProgress polls data cap st i) as He.
  pose proof (step_trichotomy onProgress polls data cap st i) as Ht.
  cbn in He, Ht. set (st' := step onProgress polls data cap st i) in *.
  assert (Hpush :
    currentCapital st' = cap0 + realized_profit (l_trades st') ->
    Forall (fun e => exists n, (n <= length (l_trades st'))%nat /\
              e = cap0 + realized_profit (firstn n (l_trades st')))
           (l_equity st) ->
    Forall (fun e => exists n, (n <= length (l_trades st'))%nat /\
              e = cap0 + realized_profit (firstn n (l_trades st')))
           (l_equity st')).
  { intros Hcap' Hl. destruct (read_window data i); rewrite He; trivial.
    apply Forall_app. split; [exact Hl|].
    constructor; [|constructor]. exists (length (l_trades st')).
    split; [lia|]. now rewrite firstn_all. }
  destruct Ht as [N|[[P B]|[P S]]].
  - destruct N as (E1 & E2 & E3 & _ & _ & E6 & E7).
    unfold accounting. rewrite E2, E3, E6, E7.
    repeat split; trivial.
    rewrite <- E2. apply Hpush; rewrite ?E2, ?E3; trivial.
  - destruct B as (p & t & Et & Ety & Epr & _ & _ & _ & _ & _ & _ & _ & E3
                     & _ & _ & E6 & E7).
    assert (Hr : realized t = 0) by (unfold realized; now rewrite Epr).
    assert (Hcap' : currentCapital st' = cap0 + realized_profit (l_trades st')).
    { rewrite Et, realized_profit_snoc, Hr, E3, Hcap. ring. }
    unfold accounting. repeat split; trivial.
    + rewrite Et, count_type_snoc, E6, E7. unfold is_type. rewrite Ety. lia.
    + rewrite Et, filter_app, length_app, E6, Hwin. cbn [filter].
      assert (winning t = false) as ->
        by (unfold winning; rewrite Hr; reflexivity).
      cbn. lia.
    + rewrite Et. apply Forall_app. split; trivial.
      constructor; [|constructor]. now intros _.
    + apply Hpush; trivial.
      rewrite Et. now apply accounting_equity_grow.
  - destruct S as (p & t & pr & Et & _ & Ety & Epr & _ & _ & _ & _ & _ & _
                     & E3 & _ & _ & Hw & Hl).
    assert (Hr : realized t = pr) by (unfold realized; now rewrite Epr).
    assert (Hcap' : currentCapital st' = cap0 + realized_profit (l_trades st')).
    { rewrite Et, realized_profit_snoc, Hr, E3, Hcap. ring. }
    unfold accounting. repeat split; trivial.
    + rewrite Et, count_type_snoc. unfold is_type. rewrite Ety.
      destruct (Qclt_le_dec 0 pr) as [Hpos|Hneg].
      * destruct (Hw Hpos) as [-> ->]. lia.
      * destruct (Hl Hneg) as [-> ->]. lia.
    + rewrite Et, filter_app, length_app. cbn [filter].
      assert (Ewin : winning t = ltb 0 pr)
        by (unfold winning, gtb; now rewrite Hr).
      rewrite Ewin.
      destruct (Qclt_le_dec 0 pr) as [Hpos|Hneg].
      * destruct (Hw Hpos) as [-> _]. apply ltb_lt in Hpos. rewrite Hpos.
        cbn. lia.
      * destruct (Hl Hneg) as [-> _]. apply ltb_ge in Hneg. rewrite Hneg.
        cbn. lia.
    + rewrite Et. apply Forall_app. split; trivial.
      constructor; [|constructor]. congruence.
    + apply Hpush; trivial.
      rewrite Et. now apply accounting_equity_grow.
Qed.

Lemma init_accounting (this : WeightedStrategy) (cap : num) :
  accounting cap (init this cap).
Proof.
  unfold accounting, init, realized_profit. cbn. repeat split; trivial.
  - unfold sum. cbn. ring.
  - constructor; [|constructor]. exists 0%nat. split; [lia|].
    unfold sum. cbn. ring.
Qed.


(** ** Progress emission (C8) *)

Lemma paused_polls_emitted (data : list (option Candle)) (cap : num)
    (i n : nat) (st : Loop) :
  emitted (paused_polls true (length data) cap i n st)
  = emitted st ++ repeat (snapshot data cap i true None st) n.
Proof.
  revert st. induction n as [|n IH]; intros st; cbn [paused_polls repeat].
  - now rewrite app_nil_r.
  - rewrite IH. cbn. rewrite <- app_assoc. reflexivity.
Qed.

Lemma snapshot_locals (data : list (option Candle)) (cap : num) (i : nat)
    (paused : bool) (last : option Analysis) (a b : Loop) :
  same_locals a b ->
  snapshot data cap i paused last a = snapshot data cap i paused last b.
Proof.
  intros (_ & E2 & E3 & E4 & _). unfold snapshot. now rewrite E2, E3, E4.
Qed.

Lemma traded_emitted (ts : Z) (prices volumes : list num) (st : Loop) :
  emitted (traded ts prices volumes st) = emitted st.
Proof.
  unfold traded, push_equity. cbn [emitted]. unfold trade.
  destruct (position (self st));
    match goal with |- context [if ?c then _ else _] => destruct c end;
    reflexivity.
Qed.

(** The calls of one step: the paused notices, then, if the step went
    through and the index is a multiple of 50 or a trade has been made, one
    snapshot of the locals as the step leaves them. *)
Lemma step_emitted (polls : nat -> nat) (data : list (option Candle))
    (cap : num) (st : Loop) (i : nat) :
  let st' := step true polls data cap st i in
  exists last,
    emitted st' =
    emitted st ++ repeat (snapshot data cap i true None st) (polls i)
      ++ (if succeeds data i
             && ((i mod 50 =? 0)%nat || (0 <? length (l_trades st'))%nat)
          then [snapshot data cap i false (Some last) st'] else []).
Proof.
  intros st'. subst st'. unfold step, succeeds.
  set (st0 := paused_polls true (length data) cap i (polls i) st).
  assert (E0 : emitted st0 = emitted st
                 ++ repeat (snapshot data cap i true None st) (polls i))
    by apply paused_polls_emitted.
  destruct (read_window data i) as [[[ts prices] volumes]|].
  - unfold process. fold (traded ts prices volumes st0).
    set (result := analyze (self st0) _).
    exists (analysis_of result). cbn [andb].
    destruct (_ || _) eqn:C.
    + cbn [emit l_trades]. rewrite C. cbn [emitted].
      rewrite traded_emitted, E0, <- app_assoc. reflexivity.
    + rewrite C, app_nil_r, <- E0. apply traded_emitted.
  - exists (analysis_of (analyze (self st) {| prices := []; volumes := [];
                                              md_timestamp := 0 |})).
    cbn [andb]. now rewrite app_nil_r.
Qed.

Lemma step_events_spec (polls : nat -> nat) (data : list (option Candle))
    (cap : num) (st : Loop) (i : nat) :
  let st' := step true polls data cap st i in
  emitted st' = emitted st ++ step_events polls data cap st i /\
  exists last,
    step_events polls data cap st i =
    repeat (snapshot data cap i true None st) (polls i)
      ++ (if succeeds data i
             && ((i mod 50 =? 0)%nat || (0 <? length (l_trades st'))%nat)
          then [snapshot data cap i false (Some last) st'] else []).
Proof.
  intros st'. destruct (step_emitted polls data cap st i) as [last E].
  fold st' in E. unfold step_events. fold st'. rewrite E.
  rewrite skipn_app, skipn_all, Nat.sub_diag. cbn [skipn app].
  split; [reflexivity | now exists last].
Qed.

Lemma step_events_candle (polls : nat -> nat) (data : list (option Candle))
    (cap : num) (st : Loop) (i : nat) (p : BacktestProgress) :
  In p (step_events polls data cap st i) -> currentCandle p = i.
Proof.
  destruct (step_events_spec polls data cap st i) as [_ [last E]].
  rewrite E. intros H. apply in_app_or in H. destruct H as [H|H].
  - apply repeat_spec in H. now subst p.
  - destruct (_ && _); [|contradiction].
    destruct H as [<-|[]]. reflexivity.
Qed.

(** The unpaused snapshot of a step: there is one exactly when the step
    went through and the index is a multiple of 50 or the log is not
    empty, and it shows the locals as the step leaves them. *)
Lemma step_events_unpaused (polls : nat -> nat) (data : list (option Candle))
    (cap : num) (st : Loop) (i : nat) :
  let st' := step true polls data cap st i in
  ((exists p, In p (step_events polls data cap st i) /\ p_isPaused p = false)
   <-> succeeds data i = true /\ ((i mod 50 = 0)%nat \/ l_trades st' <> [])) /\
  (forall p, In p (step_events polls data cap st i) -> p_isPaused p = false ->
     p_trades p = l_trades st' /\ p_equity p = l_equity st' /\
     p_currentCapital p = currentCapital st' /\
     totalCandles p = length data /\ p_initialCapital p = cap).
Proof.
  intros st'. destruct (step_events_spec polls data cap st i) as [_ [last E]].
  fold st' in E. rewrite E.
  assert (C : ((i mod 50 =? 0)%nat || (0 <? length (l_trades st'))%nat) = true
              <-> ((i mod 50 = 0)%nat \/ l_trades st' <> [])).
  { rewrite orb_true_iff, Nat.eqb_eq, Nat.ltb_lt.
    destruct (l_trades st'); cbn; intuition (congruence || lia). }
  split; [split|].
  - intros (p & Hin & Hp). apply in_app_or in Hin. destruct Hin as [H|H].
    + apply repeat_spec in H. subst p. discriminate.
    + destruct (succeeds data i); [|contradiction]. cbn [andb] in H.
      destruct (_ || _); [|contradiction]. split; trivial. now apply C.
  - intros [Hs Hc]. apply C in Hc. rewrite Hs, Hc. cbn [andb].
    eexists. split; [apply in_or_app; right; left; reflexivity|reflexivity].
  - intros p Hin Hp. apply in_app_or in Hin. destruct Hin as [H|H].
    + apply repeat_spec in H. subst p. discriminate.
    + destruct (_ && _); [|contradiction]. destruct H as [<-|[]].
      repeat split.
Qed.

Lemma run_emitted_in (polls : nat -> nat) (data : list (option Candle))
    (cap : num) (idx : list nat) (st : Loop) (p : BacktestProgress) :
  In p (emitted (run true polls data cap idx st)) <->
  In p (emitted st) \/
  exists k i, nth_error idx k = Some i /\
    In p (step_events polls data cap
            (run true polls data cap (firstn k idx) st) i).
Proof.
  revert st. induction idx as [|i idx IH]; intros st.
  - cbn. split; [now left|]. intros [H|(k & i & H & _)]; trivial.
    destruct k; discriminate.
  - change (run true polls data cap (i :: idx) st)
      with (run true polls data cap idx (step true polls data cap st i)).
    rewrite IH. rewrite (proj1 (step_events_spec polls data cap st i)).
    rewrite in_app_iff. split.
    + intros [[H|H]|(k & j & Hk & H)].
      * now left.
      * right. exists 0%nat, i. split; trivial.
      * right. exists (S k), j. split; trivial.
    + intros [H|(k & j & Hk & H)].
      * left. now left.
      * destruct k as [|k].
        -- cbn in Hk. inversion Hk; subst j. left. now right.
        -- right. exists k, j. split; trivial.
Qed.

Lemma step_trades_grow (onProgress : bool) (polls : nat -> nat)
    (data : list (option Candle)) (cap : num) (st : Loop) (i : nat) :
  l_trades st <> [] -> l_trades (step onProgress polls data cap st i) <> [].
Proof.
  intros H.
  destruct (step_trichotomy onProgress polls data cap st i) as [N|[[_ B]|[_ S]]].
  - destruct N as (_ & E & _). now rewrite E.
  - destruct B as (p & t & E & _). rewrite E. now destruct (l_trades st).
  - destruct S as (p & t & pr & E & _). rewrite E. now destruct (l_trades st).
Qed.

Lemma state_after_trades_grow (this : WeightedStrategy) (onProgress : bool)
    (polls : nat -> nat) (data : list (option Candle)) (cap : num)
    (k k' : nat) :
  (k <= k')%nat ->
  l_trades (state_after this onProgress polls data cap k) <> [] ->
  l_trades (state_after this onProgress polls data cap k') <> [].
Proof.
  induction 1 as [|k' _ IH]; trivial. intros H. specialize (IH H).
  rewrite state_after_S. destruct (nth_error _ k'); trivial.
  now apply step_trades_grow.
Qed.

(** Without a callback no call is recorded. *)
Lemma no_callback_no_calls (polls : nat -> nat) (data : list (option Candle))
    (cap : num) (idx : list nat) (st : Loop) :
  emitted (run false polls data cap idx st) = emitted st.
Proof.
  revert st. induction idx as [|i idx IH]; intros st; trivial.
  change (run false polls data cap (i :: idx) st)
    with (run false polls data cap idx (step false polls data cap st i)).
  rewrite IH. unfold step.
  assert (P : forall n st0,
            paused_polls false (length data) cap i n st0 = st0)
    by (induction n; intros; cbn; trivial).
  rewrite P. destruct (read_window data i) as [[[ts prices] volumes]|]; trivial.
  unfold process. fold (traded ts prices volumes st).
  destruct (_ || _); cbn [emit]; apply traded_emitted.
Qed.

Lemma indices_position (this : WeightedStrategy) (data : list (option Candle))
    (k k' i : nat) :
  nth_error (indices this data) k = Some i ->
  nth_error (indices this data) k' = Some i -> k = k'.
Proof.
  intros H H'. pose proof (seq_NoDup (length data - minCandles this)
                                     (minCandles this)) as ND.
  rewrite NoDup_nth_error in ND. apply ND.
  - apply nth_error_Some. unfold indices in H. congruence.
  - unfold indices in H, H'. congruence.
Qed.

(** The calls made at index [i] in the whole run are those of its step. *)
Lemma calls_at_index (this : WeightedStrategy) (polls : nat -> nat)
    (data : list (option Candle)) (cap : num) (k i : nat)
    (p : BacktestProgress) :
  nth_error (indices this data) k = Some i ->
  (In p (progress (backtest this (Array data) cap true polls))
     /\ currentCandle p = i
   <-> In p (step_events polls data cap
               (state_after this true polls data cap k) i)).
Proof.
  intros Hk.
  assert (E : progress (backtest this (Array data) cap true polls)
              = emitted (run true polls data cap (indices this data)
                             (init this cap))).
  { destruct data as [|d data]; [|reflexivity].
    unfold indices in Hk. cbn in Hk. destruct k; discriminate. }
  rewrite E, run_emitted_in. cbn [init emitted]. split.
  - intros [[[]|(k2 & j & Hk2 & Hin)] Hc].
    pose proof (step_events_candle _ _ _ _ _ _ Hin) as Hj.
    assert (Eji : j = i) by congruence. rewrite Eji in Hk2, Hin.
    now rewrite (indices_position _ _ _ _ _ Hk Hk2).
  - intros Hin. split.
    + right. exists k, i. split; trivial.
    + now apply step_events_candle in Hin.
Qed.

(** C8.  With a progress callback supplied, take the step at an index [i]
    that went through (none of its reads raised).  The callback received
    an unpaused snapshot for [i] if and only if [i] is a multiple of 50 or
    the trade log is not empty once the step is done; that snapshot shows
    the log, the equity and the capital as the step left them.  So once a
    trade has been made, every later step that goes through is reported. *)
Theorem progress_emission :
  forall (this : WeightedStrategy) (polls : nat -> nat)
         (data : list (option Candle)) (initialCapital : num) (k i : nat),
    nth_error (indices this data) k = Some i ->
    succeeds data i = true ->
    let st' := state_after this true polls data initialCapital (S k) in
    let calls :=
      progress (backtest this (Array data) initialCapital true polls) in
    ((exists p, In p calls /\ currentCandle p = i /\ p_isPaused p = false)
       <-> ((i mod 50 = 0)%nat \/ l_trades st' <> [])) /\
    (forall p, In p calls -> currentCandle p = i -> p_isPaused p = false ->
       p_trades p = l_trades st' /\ p_equity p = l_equity st' /\
       p_currentCapital p = currentCapital st') /\
    (l_trades st' <> [] ->
       forall k' j, (k <= k')%nat ->
         nth_error (indices this data) k' = Some j ->
         succeeds data j = true ->
         exists p, In p calls /\ currentCandle p = j /\ p_isPaused p = false).
Proof.
  intros this polls data cap k i Hk Hs st' calls.
  assert (Hat : forall k0 i0, nth_error (indices this data) k0 = Some i0 ->
    succeeds data i0 = true ->
    ((exists p, In p calls /\ currentCandle p = i0 /\ p_isPaused p = false)
     <-> ((i0 mod 50 = 0)%nat
          \/ l_trades (state_after this true polls data cap (S k0)) <> []))).
  { intros k0 i0 Hk0 Hs0.
    pose proof (step_events_unpaused polls data cap
                  (state_after this true polls data cap k0) i0) as [U _].
    rewrite state_after_S, Hk0. cbn in U. rewrite Hs0 in U.
    split.
    - intros (p & Hin & Hc & Hp).
      assert (In p calls /\ currentCandle p = i0) as Hpc by tauto.
      subst calls. rewrite (calls_at_index _ _ _ _ _ _ _ Hk0) in Hpc.
      apply (proj1 U). eauto.
    - intros Hc. destruct (proj2 U (conj eq_refl Hc)) as (p & Hin & Hp).
      subst calls. rewrite <- (calls_at_index _ _ _ _ _ _ _ Hk0) in Hin.
      exists p. tauto. }
  split; [|split].
  - now apply Hat.
  - intros p Hin Hc Hp.
    assert (In p calls /\ currentCandle p = i) as Hpc by tauto.
    subst calls. rewrite (calls_at_index _ _ _ _ _ _ _ Hk) in Hpc.
    pose proof (step_events_unpaused polls data cap
                  (state_after this true polls data cap k) i) as [_ V].
    cbn in V. destruct (V p Hpc Hp) as (V1 & V2 & V3 & _).
    subst st'. rewrite state_after_S, Hk. tauto.
  - intros Hne k' j Hle Hk' Hsj. apply (Hat k' j Hk' Hsj). right.
    apply (state_after_trades_grow this true polls data cap (S k) (S k'));
      [lia | exact Hne].
Qed.

(** ** Closing a position (C4) *)

Lemma map_field_app (f : Candle -> num) (w1 w2 : list (option Candle)) :
  map_field f (w1 ++ w2) =
  match map_field f w1, map_field f w2 with
  | Some a, Some b => Some (a ++ b)
  | _, _ => None
  end.
Proof.
  induction w1 as [|[d|] w1 IH]; cbn.
  - now destruct (map_field f w2).
  - rewrite IH. destruct (map_field f w1), (map_field f w2); reflexivity.
  - reflexivity.
Qed.

(** The reads of the step at [i]: candle [i] is there, its timestamp is the
    one read, and the current price is its close. *)
Lemma read_window_current (data : list (option Candle)) (i : nat) (ts : Z)
    (prices volumes : list num) :
  read_window data i = Some (ts, prices, volumes) ->
  exists d, nth_error data i = Some (Some d) /\ ts = timestamp d /\
            last_elem prices = close d.
Proof.
  unfold read_window. intros H.
  destruct (nth_error data i) as [[d|]|] eqn:E.
  - replace (Z.of_nat i + 1)%Z with (Z.of_nat (S i)) in H by lia.
    rewrite slice_prefix, (firstn_snoc _ _ _ E), !map_field_app in H.
    cbn [map_field] in H.
    destruct (map_field close (firstn i data)) as [ps|]; [|discriminate].
    destruct (map_field c_volume (firstn i data)) as [vs|]; [|discriminate].
    inversion H; subst. exists d. repeat split.
    unfold last_elem. apply last_last.
  - repeat match type of H with
           | context [match ?x with _ => _ end] => destruct x
           end; discriminate.
  - repeat match type of H with
           | context [match ?x with _ => _ end] => destruct x
           end; discriminate.
Qed.

(** C4.  A step in the long state whose composite signal is below
    [-signalThreshold] closes the position at the close of the current
    candle: the profit is [(exitPrice - entryPrice) * size]; it is added to
    the capital; the trade counts as winning exactly when the profit is
    positive and as losing otherwise; a sell carrying that profit is
    appended; the position becomes [none]; the peak capital and the
    maximum drawdown [max(previous, (peak - capital) / peak)] are updated;
    and the new capital is pushed on the equity curve.  In particular, from
    a flat state with capital 1000 and no trade counted, a buy step at
    close 100 takes a size of 9.5 and a following sell step at close 110
    realizes 95: capital 1095, one winning trade, none losing, win rate
    100. *)
Theorem sell_closes_position :
  (forall (onProgress : bool) (polls : nat -> nat)
          (data : list (option Candle)) (initialCapital : num) (st : Loop)
          (i : nat) (ts : Z) (prices volumes : list num),
     position (self st) = long ->
     read_window data i = Some (ts, prices, volumes) ->
     totalSignal
       (analyze (self st)
          {| prices := prices; volumes := volumes; md_timestamp := ts |})
       < - signalThreshold (self st) ->
     let st' := step onProgress polls data initialCapital st i in
     let exitPrice := last_elem prices in
     let pr := (exitPrice - entryPrice (self st)) * positionSize (self st) in
     (exists d, nth_error data i = Some (Some d) /\ exitPrice = close d) /\
     currentCapital st' = currentCapital st + pr /\
     (0 < pr -> l_winningTrades st' = S (l_winningTrades st) /\
                l_losingTrades st' = l_losingTrades st) /\
     (pr <= 0 -> l_winningTrades st' = l_winningTrades st /\
                 l_losingTrades st' = S (l_losingTrades st)) /\
     (exists t, l_trades st' = l_trades st ++ [t] /\ type t = tsell /\
        price t = exitPrice /\ profit t = Some pr /\
        size t = positionSize (self st)) /\
     position (self st') = none /\
     maxCapital st' = Math_max (maxCapital st) (currentCapital st') /\
     maxDrawdown st' =
       Math_max (maxDrawdown st)
                ((maxCapital st' - currentCapital st') / maxCapital st') /\
     l_equity st' = l_equity st ++ [currentCapital st']) /\
  (forall (onProgress : bool) (polls : nat -> nat)
          (data : list (option Candle)) (st : Loop)
          (i1 i2 : nat) (ts1 ts2 : Z) (prices1 volumes1 prices2 volumes2 : list num),
     position (self st) = none ->
     currentCapital st = dec 1000 1 ->
     l_winningTrades st = 0%nat -> l_losingTrades st = 0%nat ->
     read_window data i1 = Some (ts1, prices1, volumes1) ->
     last_elem prices1 = dec 100 1 ->
     signalThreshold (self st)
       < totalSignal
           (analyze (self st)
              {| prices := prices1; volumes := volumes1;
                 md_timestamp := ts1 |}) ->
     let st1 := step onProgress polls data (dec 1000 1) st i1 in
     read_window data i2 = Some (ts2, prices2, volumes2) ->
     last_elem prices2 = dec 110 1 ->
     totalSignal
       (analyze (self st1)
          {| prices := prices2; volumes := volumes2; md_timestamp := ts2 |})
       < - signalThreshold (self st1) ->
     let st2 := step onProgress polls data (dec 1000 1) st1 i2 in
     let r := summary (dec 1000 1) st2 in
     (exists b s, l_trades st2 = l_trades st ++ [b; s] /\
        type b = tbuy /\ price b = dec 100 1 /\ size b = dec 95 10 /\
        type s = tsell /\ price s = dec 110 1 /\ size s = dec 95 10 /\
        profit s = Some (dec 95 1)) /\
     currentCapital st2 = dec 1095 1 /\ r_profit r = dec 95 1 /\
     winningTrades r = 1%nat /\ losingTrades r = 0%nat /\
     totalTrades r = 1%nat /\ winRate r = dec 100 1).
Proof.
  split.
  - intros cb polls data cap st i ts prices volumes Hlong Hread Hsig
           st' exitPrice pr.
    pose proof (step_cases cb polls data cap st i) as Hc.
    pose proof (step_equity cb polls data cap st i) as He.
    cbv zeta in Hc, He. fold st' in Hc, He. rewrite Hread in Hc, He.
    unfold trade_outcome in Hc. rewrite Hlong in Hc.
    apply ltb_lt in Hsig. rewrite Hsig in Hc.
    destruct Hc as (t & pr' & Et & Epr & Ety & Eprofit & Eprice & Esize
                      & Epos & _ & _ & _ & Ecap & Emax & Edd & Hw & Hl).
    fold exitPrice in Epr, Eprice. fold pr in Epr. subst pr'.
    destruct (read_window_current _ _ _ _ _ Hread) as (d & Hd & _ & Hlast).
    repeat split; trivial; try (now apply Hw); try (now apply Hl); eauto 10.
  - intros cb polls data st i1 i2 ts1 ts2 prices1 volumes1 prices2 volumes2
           Hflat Hcap Hw0 Hl0 Hread1 Hp1 Hsig1 st1 Hread2 Hp2 Hsig2 st2 r.
    pose proof (step_cases cb polls data (dec 1000 1) st i1) as Hc1.
    cbv zeta in Hc1. fold st1 in Hc1. rewrite Hread1 in Hc1.
    unfold trade_outcome in Hc1. rewrite Hflat in Hc1.
    apply ltb_lt in Hsig1. unfold gtb in Hc1. rewrite Hsig1 in Hc1.
    unfold bought in Hc1. rewrite Hp1, Hcap in Hc1.
    destruct Hc1 as (b & Eb & Etb & _ & Epb & Esb & Epos1 & Eentry & Esize1
                       & _ & _ & Ecap1 & _ & _ & Ew1 & El1).
    assert (Es : size b = dec 95 10) by (rewrite Esb; by_eval).
    pose proof (step_cases cb polls data (dec 1000 1) st1 i2) as Hc2.
    cbv zeta in Hc2. fold st2 in Hc2. rewrite Hread2 in Hc2.
    unfold trade_outcome in Hc2. rewrite Epos1 in Hc2.
    apply ltb_lt in Hsig2. rewrite Hsig2 in Hc2.
    unfold sold in Hc2. rewrite Hp2, Eentry, Esize1, Es in Hc2.
    destruct Hc2 as (s & pr & Et & Epr & Ets & Eprofit & Eps & Ess & _ & _
                       & _ & _ & Ecap2 & _ & _ & Hw & _).
    assert (Epr95 : pr = dec 95 1) by (rewrite Epr; by_eval).
    assert (Hpos : 0 < pr) by (rewrite Epr95; by_eval).
    destruct (Hw Hpos) as [Ew2 El2].
    assert (Ecap' : currentCapital st2 = dec 1095 1).
    { rewrite Ecap2, Ecap1, Epr95. by_eval. }
    subst r. unfold summary.
    cbn [r_profit winningTrades losingTrades totalTrades winRate].
    rewrite Ew2, El2, Ew1, El1, Hw0, Hl0, Ecap'. cbn [Nat.add Nat.ltb Nat.leb].
    repeat split; trivial; try by_eval.
    exists b, s. rewrite Et, Eb, <- app_assoc. cbn [app].
    rewrite Epr95 in Eprofit. repeat split; trivial.
Qed.

(** ** The Sharpe ratio (C1) *)

Lemma returns_from_step_returns (prev : num) (rest : list num) :
  returns_from prev rest = step_returns (prev :: rest).
Proof.
  unfold step_returns. cbn [length]. rewrite Nat.sub_succ, Nat.sub_0_r.
  revert prev. induction rest as [|v rest IH]; intros prev; trivial.
  cbn [returns_from length seq map nth Nat.sub]. f_equal.
  rewrite IH, <- (seq_shift (length rest) 1), map_map. apply map_ext_in.
  intros i Hi. apply in_seq in Hi.
  destruct i as [|i]; [lia|]. cbn [Nat.sub nth]. now rewrite Nat.sub_0_r.
Qed.

Lemma returns_padded (equity : list num) :
  equity <> [] -> returns equity = 0 :: step_returns equity.
Proof.
  destruct equity as [|e0 rest]; [congruence|]. intros _.
  cbn [returns]. now rewrite returns_from_step_returns.
Qed.

Lemma fold_left_sum_map (f : num -> num) (l : list num) (a : num) :
  fold_left (fun a b => a + f b) l a = fold_left Qcplus (map f l) a.
Proof.
  revert a. induction l as [|x l IH]; intros a; cbn; trivial.
Qed.

(** The ratio the engine computes is the ratio of its [returns] series. *)
Lemma sharpe_sharpe_of (equity : list num) :
  sharpe equity = sharpe_of (returns equity).
Proof.
  unfold sharpe, sharpe_of, stdDev, population_std, averageReturn, mean, sum.
  now rewrite fold_left_sum_map.
Qed.

Lemma backtest_equity_nonempty (this : WeightedStrategy) (onProgress : bool)
    (polls : nat -> nat) (data : list (option Candle)) (cap : num)
    (r : BacktestResult) :
  returned (backtest this (Array data) cap onProgress polls) = inr r ->
  equity r <> [] /\ sharpeRatio r = sharpe (equity r).
Proof.
  intros Hr. apply backtest_trades in Hr. subst r.
  cbn [equity sharpeRatio summary]. split; trivial.
  apply (state_after_ind (fun st => l_equity st <> [])).
  - discriminate.
  - intros st i H. pose proof (step_equity onProgress polls data cap st i) as E.
    cbn in E. destruct (read_window data i); rewrite E; trivial.
    now destruct (l_equity st).
Qed.

(** C1, as the engine has it.  For every completed run whose equity curve
    has at least two entries, [sharpeRatio] is the mean of the series made
    of a leading 0 (the entry the engine gives index 0) followed by the
    per-step returns [(equity[i] - equity[i-1]) / equity[i-1]], [i >= 1],
    divided by the population standard deviation of that same series,
    times [sqrt 252]; it is 0 when that deviation is 0.  The series has as
    many entries as the equity curve. *)
Theorem sharpe_ratio_of_padded_returns :
  forall (this : WeightedStrategy) (onProgress : bool) (polls : nat -> nat)
         (data : list (option Candle)) (initialCapital : num)
         (r : BacktestResult),
    returned (backtest this (Array data) initialCapital onProgress polls)
      = inr r ->
    (2 <= length (equity r))%nat ->
    let rs := 0 :: step_returns (equity r) in
    length rs = length (equity r) /\
    (population_std rs = 0 -> sharpeRatio r = 0) /\
    (population_std rs <> 0 ->
       sharpeRatio r
       = mean rs / population_std rs * Math_sqrt (dec 252 1)).
Proof.
  intros this cb polls data cap r Hr Hlen rs.
  destruct (backtest_equity_nonempty _ _ _ _ _ _ Hr) as [Hne ->].
  rewrite sharpe_sharpe_of, (returns_padded _ Hne). fold rs.
  split; [|split].
  - subst rs. unfold step_returns. cbn [length].
    rewrite length_map, length_seq. lia.
  - intros H0. unfold sharpe_of. apply eqb_eq in H0. now rewrite H0.
  - intros Hnz. unfold sharpe_of. destruct (eqb _ 0) eqn:E; trivial.
    apply eqb_eq in E. contradiction.
Qed.

(** ** A run starts where the last one stopped (C9) *)

Lemma run_trades_prefix (onProgress : bool) (polls : nat -> nat)
    (data : list (option Candle)) (cap : num) (idx : list nat) (st : Loop) :
  exists more,
    l_trades (run onProgress polls data cap idx st) = l_trades st ++ more.
Proof.
  revert st. induction idx as [|i idx IH]; intros st.
  - exists []. cbn. now rewrite app_nil_r.
  - destruct (IH (step onProgress polls data cap st i)) as [more E].
    change (run onProgress polls data cap (i :: idx) st)
      with (run onProgress polls data cap idx
              (step onProgress polls data cap st i)).
    rewrite E.
    destruct (step_trichotomy onProgress polls data cap st i)
      as [N|[[_ B]|[_ S]]].
    + destruct N as (_ & -> & _). now exists more.
    + destruct B as (p & t & -> & _). rewrite <- app_assoc. now eexists.
    + destruct S as (p & t & pr & -> & _). rewrite <- app_assoc. now eexists.
Qed.

(** [backtest] reads the position, the entry price and the size from the
    instance as it finds it: when no index is visited the instance comes
    back as it was, and when the instance is long and the first visited
    step has a sell signal, the trade log of the run begins with a sell
    whose profit is taken against the entry price and the size that were
    already there. *)
Lemma backtest_keeps_position :
  forall (this : WeightedStrategy) (onProgress : bool) (polls : nat -> nat)
         (data : list (option Candle)) (initialCapital : num),
    (data <> [] -> (length data <= minCandles this)%nat ->
       instance (backtest this (Array data) initialCapital onProgress polls)
       = this) /\
    (forall (ts : Z) (prices volumes : list num),
       position this = long ->
       (minCandles this < length data)%nat ->
       read_window data (minCandles this) = Some (ts, prices, volumes) ->
       totalSignal
         (analyze this
            {| prices := prices; volumes := volumes; md_timestamp := ts |})
         < - signalThreshold this ->
       exists r t rest,
         returned (backtest this (Array data) initialCapital onProgress polls)
           = inr r /\
         trades r = t :: rest /\ type t = tsell /\
         price t = last_elem prices /\ size t = positionSize this /\
         profit t
           = Some ((last_elem prices - entryPrice this) * positionSize this)).
Proof.
  intros this cb polls data cap. split.
  - intros Hne Hlen. destruct data as [|d data]; [congruence|].
    cbn [backtest instance]. unfold indices.
    replace (length (d :: data) - minCandles this)%nat with 0%nat by lia.
    reflexivity.
  - intros ts prices volumes Hlong Hlen Hread Hsig.
    destruct data as [|d data]; [cbn in Hlen; lia|].
    assert (Hidx : indices this (d :: data)
                   = minCandles this
                     :: seq (S (minCandles this))
                            (length (d :: data) - S (minCandles this))).
    { unfold indices.
      replace (length (d :: data) - minCandles this)%nat
        with (S (length (d :: data) - S (minCandles this))) by lia.
      reflexivity. }
    set (st1 := step cb polls (d :: data) cap (init this cap) (minCandles this)).
    pose proof (step_cases cb polls (d :: data) cap (init this cap)
                  (minCandles this)) as Hc.
    cbv zeta in Hc. fold st1 in Hc. rewrite Hread in Hc.
    unfold trade_outcome in Hc. cbn [init self] in Hc. rewrite Hlong in Hc.
    apply ltb_lt in Hsig. rewrite Hsig in Hc.
    destruct Hc as (t & pr & Et & Epr & Ety & Eprofit & Eprice & Esize & _).
    cbn [l_trades app] in Et.
    destruct (run_trades_prefix cb polls (d :: data) cap
                (seq (S (minCandles this))
                     (length (d :: data) - S (minCandles this))) st1)
      as [more E].
    exists (summary cap
              (run cb polls (d :: data) cap (indices this (d :: data))
                   (init this cap))), t, more.
    split; [reflexivity|]. cbn [summary trades]. rewrite Hidx.
    change (run cb polls (d :: data) cap (minCandles this :: ?l) (init this cap))
      with (run cb polls (d :: data) cap l st1).
    rewrite E, Et. repeat split; trivial. now rewrite Eprofit, Epr.
Qed.

(** * Further properties of the indicator library *)

(** ** Numbers and averages *)

Lemma of_nat_0 : of_nat 0 = 0.
Proof. by_eval. Qed.

Lemma of_nat_S (n : nat) : of_nat (S n) = of_nat n + 1.
Proof.
  unfold of_nat, of_Z. apply Qc_is_canon. rewrite this_plus, !this_Q2Qc.
  rewrite Nat2Z.inj_succ. unfold Z.succ. rewrite inject_Z_plus. reflexivity.
Qed.

Lemma of_nat_nonneg (n : nat) : 0 <= of_nat n.
Proof.
  induction n as [|n IH]; [apply Qcle_refl|]. rewrite of_nat_S. to_Q. lra.
Qed.

Lemma of_nat_pos (n : nat) : (0 < n)%nat -> 0 < of_nat n.
Proof.
  destruct n as [|n]; [lia|]. intros _. rewrite of_nat_S.
  pose proof (of_nat_nonneg n). to_Q. lra.
Qed.



(** ** The exponential moving average and MACD *)

(** [calculateEMA] without the slices: the seed is the average of the
    first [period] prices, the updates run over the others. *)
Lemma calculateEMA_eq (prices : list num) (period : nat) :
  calculateEMA prices period =
  fold_left (fun ema p => (p - ema) * multiplier period + ema)
            (skipn period prices) (average (firstn period prices)).
Proof. unfold calculateEMA. now rewrite slice_prefix. Qed.

(** X2.  With no more prices than the period, [calculateEMA] is the
    plain average of the prices: the update loop does not run. *)
Theorem calculateEMA_short :
  forall (prices : list num) (period : nat),
    (length prices <= period)%nat ->
    calculateEMA prices period = average prices.
Proof.
  intros prices period H. rewrite calculateEMA_eq.
  now rewrite skipn_all2, firstn_all2 by exact H.
Qed.

(** X4.  Once the series is at least [period] long, one more price moves
    the average by the smoothing step: recomputing over the longer series
    is the incremental update [(p - ema) * multiplier + ema]. *)
Theorem calculateEMA_next :
  forall (prices : list num) (period : nat) (p : num),
    (period <= length prices)%nat ->
    calculateEMA (prices ++ [p]) period
    = (p - calculateEMA prices period) * multiplier period
      + calculateEMA prices period.
Proof.
  intros prices period p H. rewrite !calculateEMA_eq.
  rewrite skipn_app, firstn_app.
  replace (period - length prices)%nat with 0%nat by lia.
  cbn [skipn firstn]. rewrite app_nil_r, fold_left_app. reflexivity.
Qed.

Lemma of_nat_nonzero (n : nat) : (0 < n)%nat -> of_nat n <> 0.
Proof.
  intros H E. pose proof (of_nat_pos n H) as P. rewrite E in P.
  exact (Qclt_not_eq _ _ P eq_refl).
Qed.


(** ** The relative strength index: its window and its extremes *)

(** [slice(-p)] is the suffix of the last [p] elements. *)
Lemma slice_from_suffix {A : Type} (l : list A) (p : Z) :
  (1 <= p)%Z -> slice_from l (- p) = skipn (length l - Z.to_nat p) l.
Proof.
  intros Hp. unfold slice_from, slice, rel_index.
  destruct (- p <? 0)%Z eqn:E1; [|apply Z.ltb_ge in E1; lia].
  destruct (Z.of_nat (length l) <? 0)%Z eqn:E2; [apply Z.ltb_lt in E2; lia|].
  replace (Z.to_nat (Z.max (Z.of_nat (length l) + - p) 0))
    with (length l - Z.to_nat p)%nat by lia.
  apply firstn_all2. rewrite length_skipn. lia.
Qed.

Lemma rsi_series_skipn (k : nat) (prices : list num) :
  (k < length prices)%nat ->
  rsi_series (skipn k prices)
  = (skipn k (fst (rsi_series prices)), skipn k (snd (rsi_series prices))).
Proof.
  revert prices. induction k as [|k IH]; intros prices Hk.
  - cbn [skipn]. now destruct (rsi_series prices).
  - destruct prices as [|p0 [|p1 rest]]; try (cbn in Hk; lia).
    rewrite skipn_cons, IH by (cbn in Hk |- *; lia).
    cbn [rsi_series gains_losses].
    destruct (gains_losses p1 rest) as [g l].
    destruct (geb (p1 - p0) 0); reflexivity.
Qed.

Lemma rsi_series_length (prices : list num) :
  length (fst (rsi_series prices)) = (length prices - 1)%nat /\
  length (snd (rsi_series prices)) = (length prices - 1)%nat.
Proof.
  destruct prices as [|p0 rest]; [split; reflexivity|].
  cbn [rsi_series length]. rewrite Nat.sub_succ, Nat.sub_0_r.
  apply gains_losses_length.
Qed.

(** X9.  [calculateRSI] walks the whole series but only the last
    [period + 1] prices count: the result on the series and on that
    suffix are the same. *)
Theorem calculateRSI_window :
  forall (prices : list num) (period : Z),
    (1 <= period)%Z ->
    calculateRSI (slice_from prices (- (period + 1))) period
    = calculateRSI prices period.
Proof.
  intros prices period Hp.
  assert (E : calculateSimpleRSI (slice_from prices (- (period + 1))) period
              = calculateSimpleRSI prices period).
  { rewrite slice_from_suffix by lia.
    set (k := (length prices - Z.to_nat (period + 1))%nat).
    destruct (Nat.eq_dec k 0) as [->|Hk]; [reflexivity|].
    assert (Hlt : (k < length prices)%nat) by lia.
    unfold calculateSimpleRSI. rewrite (rsi_series_skipn k prices Hlt).
    destruct (rsi_series_length prices) as [Lg Ll].
    destruct (rsi_series prices) as [gains losses]. cbn [fst snd] in *.
    rewrite !slice_from_suffix by exact Hp. rewrite !length_skipn, !skipn_skipn.
    replace (length gains - k - Z.to_nat period + k)%nat
      with (length gains - Z.to_nat period)%nat by lia.
    replace (length losses - k - Z.to_nat period + k)%nat
      with (length losses - Z.to_nat period)%nat by lia.
    reflexivity. }
  unfold calculateRSI. now rewrite E.
Qed.

Lemma never_falls_losses (prev : num) (rest : list num) :
  never_falls prev rest ->
  Forall (fun l => l = 0) (snd (gains_losses prev rest)).
Proof.
  revert prev. induction rest as [|p rest IH]; intros prev H; cbn.
  - constructor.
  - destruct H as [Hp H]. specialize (IH p H).
    destruct (gains_losses p rest) as [g l].
    assert (geb (p - prev) 0 = true) as ->.
    { apply geb_le. to_Q. lra. }
    cbn. now constructor.
Qed.





Lemma always_falls_series (prev : num) (rest : list num) :
  always_falls prev rest ->
  Forall (fun g => g = 0) (fst (gains_losses prev rest)) /\
  Forall (fun l => 0 < l) (snd (gains_losses prev rest)).
Proof.
  revert prev. induction rest as [|p rest IH]; intros prev H; cbn.
  - split; constructor.
  - destruct H as [Hp H]. destruct (IH p H) as [IHg IHl].
    destruct (gains_losses p rest) as [g l].
    assert (geb (p - prev) 0 = false) as ->.
    { destruct (geb (p - prev) 0) eqn:E; trivial.
      apply geb_le in E. exfalso. to_Q. lra. }
    cbn. split; constructor; trivial.
    unfold Math_abs. rewrite Qcabs_neg by (to_Q; lra). to_Q. lra.
Qed.

Lemma sum_all_zero (l : list num) : Forall (fun x => x = 0) l -> sum l = 0.
Proof.
  induction 1 as [|x l Hx _ IH]; [reflexivity|].
  rewrite sum_cons, Hx, IH. ring.
Qed.

Lemma average_all_zero (l : list num) :
  Forall (fun x => x = 0) l -> average l = 0.
Proof.
  intros H. unfold average. rewrite (sum_all_zero l H). unfold Qcdiv. ring.
Qed.

(** X10.  On a series of at least two prices that never falls, the RSI is
    exactly 100 and its signal is [sell]. *)
Theorem calculateRSI_never_falls :
  forall (p0 : num) (rest : list num) (period : Z),
    rest <> [] -> (1 <= period)%Z -> never_falls p0 rest ->
    value (calculateRSI (p0 :: rest) period) = dec 100 1 /\
    signal (calculateRSI (p0 :: rest) period) = sell.
Proof.
  intros p0 rest period Hne Hp H.
  assert (E : calculateSimpleRSI (p0 :: rest) period = dec 100 1).
  { unfold calculateSimpleRSI. cbn [rsi_series].
    pose proof (never_falls_losses p0 rest H) as Hl.
    destruct (gains_losses p0 rest) as [gains losses]. cbn [snd] in Hl.
    rewrite (average_all_zero (slice_from losses (- period)))
      by now apply Forall_slice.
    reflexivity. }
  unfold calculateRSI. cbn [value signal]. rewrite E. split; reflexivity.
Qed.

(** X11.  On a series of at least two prices that falls at every step,
    the RSI is exactly 0 and its signal is [buy]. *)
Theorem calculateRSI_always_falls :
  forall (p0 : num) (rest : list num) (period : Z),
    rest <> [] -> (1 <= period)%Z -> always_falls p0 rest ->
    value (calculateRSI (p0 :: rest) period) = 0 /\
    signal (calculateRSI (p0 :: rest) period) = buy.
Proof.
  intros p0 rest period Hne Hp H.
  assert (E : calculateSimpleRSI (p0 :: rest) period = 0).
  { unfold calculateSimpleRSI. cbn [rsi_series].
    destruct (always_falls_series p0 rest H) as [Hg Hl].
    pose proof (gains_losses_length p0 rest) as [_ Ll].
    destruct (gains_losses p0 rest) as [gains losses]. cbn [fst snd] in *.
    rewrite (average_all_zero (slice_from gains (- period)))
      by now apply Forall_slice.
    assert (Hnz : average (slice_from losses (- period)) <> 0).
    { intros E0.
      assert (Hs : Forall (fun l => 0 < l) (slice_from losses (- period)))
        by now apply Forall_slice.
      assert (Hlen : length (slice_from losses (- period)) <> 0%nat).
      { rewrite length_slice_last by exact Hp.
        destruct rest; [congruence | cbn in Ll; lia]. }
      apply average_zero_iff in E0.
      - destruct (slice_from losses (- period)) as [|x l]; [now cbn in Hlen|].
        inversion E0 as [|? ? Ex _]; inversion Hs as [|? ? Px _]; subst.
        exact (Qclt_not_eq _ _ Px eq_refl).
      - intros En. now rewrite En in Hlen.
      - revert Hs. apply Forall_impl. intros a. apply Qclt_le_weak. }
    destruct (eqb (average (slice_from losses (- period))) 0) eqn:Eb.
    - apply eqb_eq in Eb. contradiction.
    - unfold Qcdiv. rewrite Qcmult_0_l, Qcplus_0_r.
      apply Qc_is_canon. reflexivity. }
  unfold calculateRSI. cbn [value signal]. rewrite E. split; reflexivity.
Qed.

(** ** The volume ratio *)

Lemma slice_map {A B : Type} (f : A -> B) (l : list A) (a b : Z) :
  slice (map f l) a b = map f (slice l a b).
Proof. unfold slice. now rewrite length_map, skipn_map, firstn_map. Qed.

Lemma slice_from_map {A B : Type} (f : A -> B) (l : list A) (a : Z) :
  slice_from (map f l) a = map f (slice_from l a).
Proof. unfold slice_from. now rewrite length_map, slice_map. Qed.

(** [slice(-a, -b)]: from the [a]-th to the [b]-th element from the end. *)
Lemma slice_between {A : Type} (l : list A) (a b : Z) :
  (1 <= a)%Z -> (1 <= b)%Z ->
  slice l (- a) (- b)
  = firstn ((length l - Z.to_nat b) - (length l - Z.to_nat a))
           (skipn (length l - Z.to_nat a) l).
Proof.
  intros Ha Hb. unfold slice, rel_index.
  destruct (- a <? 0)%Z eqn:E1; [|apply Z.ltb_ge in E1; lia].
  destruct (- b <? 0)%Z eqn:E2; [|apply Z.ltb_ge in E2; lia].
  f_equal; [|f_equal]; lia.
Qed.

Lemma slice_from_twice {A : Type} (l : list A) (a b : Z) :
  (1 <= b <= a)%Z ->
  slice_from (slice_from l (- a)) (- b) = slice_from l (- b).
Proof.
  intros H. rewrite !slice_from_suffix by lia.
  rewrite length_skipn, skipn_skipn. f_equal. lia.
Qed.

Lemma slice_between_suffix {A : Type} (l : list A) (a b : Z) :
  (1 <= b <= a)%Z ->
  slice (slice_from l (- a)) (- a) (- b) = slice l (- a) (- b).
Proof.
  intros H. rewrite slice_from_suffix, !slice_between by lia.
  rewrite length_skipn, skipn_skipn.
  replace (length l - (length l - Z.to_nat a) - Z.to_nat a
           + (length l - Z.to_nat a))%nat
    with (length l - Z.to_nat a)%nat by lia.
  f_equal. lia.
Qed.


(** X12.  The volume signal reads the last 20 volumes only: on the series
    and on that suffix the result is the same. *)
Theorem calculateVolumeSignal_window :
  forall (volumes : list num),
    calculateVolumeSignal (slice_from volumes (-20)) =
    calculateVolumeSignal volumes.
Proof.
  intros volumes. unfold calculateVolumeSignal, analyzeVolume.
  change (-20)%Z with (- (20))%Z. change (-5)%Z with (- (5))%Z.
  rewrite slice_from_twice, slice_between_suffix by lia. reflexivity.
Qed.


(** ** The Bollinger bands *)

Lemma last_skipn (k : nat) (l : list num) :
  (k < length l)%nat -> last_elem (skipn k l) = last_elem l.
Proof.
  unfold last_elem. revert l. induction k as [|k IH]; intros l Hk; trivial.
  destruct l as [|x [|y l]]; try (cbn in Hk; lia).
  rewrite skipn_cons, IH by (cbn in Hk |- *; lia). reflexivity.
Qed.

(** X15.  The Bollinger signal of a non-empty series reads its last 20
    prices only: on the series and on that suffix the result is the
    same. *)
Theorem calculateBollingerBands_window :
  forall (prices : list num),
    prices <> [] ->
    calculateBollingerBands (slice_from prices (-20)) =
    calculateBollingerBands prices.
Proof.
  intros prices Hne. unfold calculateBollingerBands, calculateSimpleBollinger.
  cbv zeta. change (-20)%Z with (Z.opp 20). rewrite slice_from_twice by lia.
  assert (E : last_elem (slice_from prices (- (20))) = last_elem prices).
  { rewrite slice_from_suffix by lia. apply last_skipn.
    destruct prices; [congruence | cbn [length]; lia]. }
  now rewrite E.
Qed.




(** * Further properties of the strategy and its engine *)

(** ** Recommendation and trading *)

Lemma totalSignal_eq (this : WeightedStrategy) (data : MarketData) :
  let r := analyze this data in
  totalSignal r =
  0 + signalValue (signal (rsi r)) * dec 3 10
    + signalValue (signal (macd r)) * dec 25 100
    + signalValue (signal (bollinger r)) * dec 25 100
    + signalValue (signal (volume r)) * dec 2 10.
Proof. reflexivity. Qed.

Lemma totalSignal_range (this : WeightedStrategy) (data : MarketData) :
  - (1) <= totalSignal (analyze this data) /\
  totalSignal (analyze this data) <= 1.
Proof.
  pose proof (totalSignal_eq this data) as E. cbv zeta in E. rewrite E.
  apply weighted_sum_range.
Qed.

Lemma weighted_sum_agreement (s1 s2 s3 s4 : Signal) :
  let t := 0 + signalValue s1 * dec 3 10 + signalValue s2 * dec 25 100
             + signalValue s3 * dec 25 100 + signalValue s4 * dec 2 10 in
  (dec 55 100 < t -> (3 <= count_signal buy [s1; s2; s3; s4])%nat) /\
  (t < - dec 55 100 -> (3 <= count_signal sell [s1; s2; s3; s4])%nat).
Proof.
  destruct s1, s2, s3, s4; split; intros H; apply ltb_lt in H;
    vm_compute in H; try discriminate H; cbv; repeat constructor.
Qed.

(** X18.  With a threshold that is not negative, the engine trades on the
    recommendation of [analyze] and on nothing else: the step whose reads
    succeed buys exactly when the position is [none] and the
    recommendation is [buy], sells exactly when the position is [long] and
    the recommendation is [sell], and otherwise leaves instance, log and
    capital alone. *)
Theorem trade_follows_recommendation :
  forall (onProgress : bool) (polls : nat -> nat)
         (data : list (option Candle)) (initialCapital : num) (st : Loop)
         (i : nat) (ts : Z) (prices volumes : list num),
    0 <= signalThreshold (self st) ->
    read_window data i = Some (ts, prices, volumes) ->
    let result :=
      analyze (self st)
        {| prices := prices; volumes := volumes; md_timestamp := ts |} in
    let st' := step onProgress polls data initialCapital st i in
    match position (self st), recommendation result with
    | none, buy => bought (last_elem prices) st st'
    | long, sell => sold (last_elem prices) st st'
    | _, _ => no_trade st st'
    end.
Proof.
  intros cb polls data cap st i ts prices volumes Hthr Hread result st'.
  pose proof (step_cases cb polls data cap st i) as Hc.
  cbv zeta in Hc. fold st' in Hc. rewrite Hread in Hc. fold result in Hc.
  unfold trade_outcome in Hc.
  assert (Hrec : recommendation result =
    if gtb (totalSignal result) (signalThreshold (self st)) then buy
    else if ltb (totalSignal result) (- signalThreshold (self st)) then sell
    else neutral) by reflexivity.
  rewrite Hrec. destruct (position (self st)).
  - destruct (gtb _ _); [exact Hc|].
    destruct (ltb _ _); exact Hc.
  - destruct (ltb (totalSignal result) (- signalThreshold (self st))) eqn:E.
    + assert (gtb (totalSignal result) (signalThreshold (self st)) = false)
        as ->; [|exact Hc].
      apply ltb_lt in E. unfold gtb. apply ltb_ge. to_Q. lra.
    + destruct (gtb _ _); exact Hc.
Qed.

(** X19.  At a threshold of 0.55 or more, the default 0.6 among them, a
    recommendation needs a majority: [buy] is recommended only when at
    least three of the four indicators say [buy], and [sell] only when at
    least three say [sell].  Two indicators weigh 0.55 at most. *)
Theorem recommendation_needs_agreement :
  forall (this : WeightedStrategy) (data : MarketData),
    dec 55 100 <= signalThreshold this ->
    let r := analyze this data in
    (recommendation r = buy ->
       (3 <= count_signal buy (signals_of r))%nat) /\
    (recommendation r = sell ->
       (3 <= count_signal sell (signals_of r))%nat).
Proof.
  intros this data Hthr r.
  pose proof (totalSignal_eq this data) as E. cbv zeta in E. fold r in E.
  pose proof (weighted_sum_agreement (signal (rsi r)) (signal (macd r))
                (signal (bollinger r)) (signal (volume r))) as [Hb Hs].
  cbv zeta in Hb, Hs. rewrite <- E in Hb, Hs.
  assert (Hrec : recommendation r =
    if gtb (totalSignal r) (signalThreshold this) then buy
    else if ltb (totalSignal r) (- signalThreshold this) then sell
    else neutral) by reflexivity.
  rewrite Hrec. unfold gtb, signals_of. split; intros H.
  - destruct (ltb (signalThreshold this) (totalSignal r)) eqn:E1.
    + apply Hb. apply ltb_lt in E1. to_Q. lra.
    + destruct (ltb (totalSignal r) (- signalThreshold this)); discriminate.
  - destruct (ltb (signalThreshold this) (totalSignal r)); [discriminate|].
    destruct (ltb (totalSignal r) (- signalThreshold this)) eqn:E2;
      [|discriminate].
    apply Hs. apply ltb_lt in E2. to_Q. lra.
Qed.

Lemma summary_locals (cap : num) (a b : Loop) :
  same_locals a b -> summary cap a = summary cap b.
Proof.
  intros (E1 & E2 & E3 & E4 & E5 & E6 & E7 & E8). unfold summary.
  now rewrite E2, E3, E4, E6, E7, E8.
Qed.

Lemma run_locals (cb1 cb2 : bool) (polls1 polls2 : nat -> nat)
    (data : list (option Candle)) (cap : num) (idx : list nat) (a b : Loop) :
  same_locals a b ->
  same_locals (run cb1 polls1 data cap idx a) (run cb2 polls2 data cap idx b).
Proof.
  revert a b. induction idx as [|i idx IH]; intros a b H; [exact H|].
  change (run cb1 polls1 data cap (i :: idx) a)
    with (run cb1 polls1 data cap idx (step cb1 polls1 data cap a i)).
  change (run cb2 polls2 data cap (i :: idx) b)
    with (run cb2 polls2 data cap idx (step cb2 polls2 data cap b i)).
  apply IH.
  pose proof (step_locals cb1 polls1 data cap a i) as Ha.
  pose proof (step_locals cb2 polls2 data cap b i) as Hb.
  destruct (read_window data i) as [[[ts prices] volumes]|].
  - eapply same_locals_trans; [exact Ha|].
    eapply same_locals_trans; [apply traded_locals; exact H|].
    destruct Hb as (E1 & E2 & E3 & E4 & E5 & E6 & E7 & E8).
    repeat split; congruence.
  - eapply same_locals_trans; [exact Ha|].
    eapply same_locals_trans; [exact H|].
    destruct Hb as (E1 & E2 & E3 & E4 & E5 & E6 & E7 & E8).
    repeat split; congruence.
Qed.

(** X20.  Pausing and observing change nothing but the calls to the
    callback: whatever the pause schedule, and with or without a callback,
    [backtest] returns the same result (or the same error) and leaves the
    instance in the same state. *)
Theorem backtest_ignores_pause_and_callback :
  forall (this : WeightedStrategy) (data : JsValue) (initialCapital : num)
         (onProgress onProgress' : bool) (polls polls' : nat -> nat),
    returned (backtest this data initialCapital onProgress polls)
      = returned (backtest this data initialCapital onProgress' polls') /\
    instance (backtest this data initialCapital onProgress polls)
      = instance (backtest this data initialCapital onProgress' polls').
Proof.
  intros this data cap cb cb' polls polls'.
  destruct data as [| |[|d data]]; try (split; reflexivity).
  cbn [backtest returned instance].
  pose proof (run_locals cb cb' polls polls' (d :: data) cap
                (indices this (d :: data)) _ _
                (same_locals_refl (init this cap))) as H.
  rewrite (summary_locals cap _ _ H). split; [reflexivity | apply H].
Qed.

Lemma step_equity_const (onProgress : bool) (polls : nat -> nat)
    (data : list (option Candle)) (cap c : num) (st : Loop) (i : nat) :
  let st' := step onProgress polls data cap st i in
  currentCapital st' = c -> Forall (fun e => e = c) (l_equity st) ->
  Forall (fun e => e = c) (l_equity st').
Proof.
  intros st' Hc H. pose proof (step_equity onProgress polls data cap st i) as E.
  cbv zeta in E. fold st' in E.
  destruct (read_window data i); rewrite E; trivial.
  apply Forall_app. split; trivial. now repeat constructor.
Qed.

(** X21.  With a threshold of 1 or more a run that starts flat never
    trades: after any number of steps the log is empty, the instance is
    as it was and every equity entry is the initial capital; so the
    result has no trade, no profit and a flat equity curve. *)
Theorem threshold_one_never_trades :
  forall (this : WeightedStrategy) (onProgress : bool) (polls : nat -> nat)
         (data : list (option Candle)) (initialCapital : num) (k : nat),
    position this = none -> 1 <= signalThreshold this ->
    let st := state_after this onProgress polls data initialCapital k in
    (l_trades st = [] /\ self st = this /\
     Forall (fun e => e = initialCapital) (l_equity st)) /\
    (forall r,
       returned (backtest this (Array data) initialCapital onProgress polls)
         = inr r ->
       trades r = [] /\ totalTrades r = 0%nat /\ r_profit r = 0 /\
       Forall (fun e => e = initialCapital) (equity r)).
Proof.
  intros this cb polls data cap k Hflat Hthr.
  assert (Inv : forall n,
    let st := state_after this cb polls data cap n in
    self st = this /\ l_trades st = [] /\ currentCapital st = cap /\
    l_winningTrades st = 0%nat /\ l_losingTrades st = 0%nat /\
    Forall (fun e => e = cap) (l_equity st)).
  { intros n. cbv zeta.
    apply (state_after_ind (fun st =>
      self st = this /\ l_trades st = [] /\ currentCapital st = cap /\
      l_winningTrades st = 0%nat /\ l_losingTrades st = 0%nat /\
      Forall (fun e => e = cap) (l_equity st))).
    - cbn. repeat split; trivial. now repeat constructor.
    - intros st i (Es & Et & Ec & Ew & El & Eq).
      pose proof (step_cases cb polls data cap st i) as Hc.
      pose proof (step_equity_const cb polls data cap cap st i) as Hq.
      cbv zeta in Hc, Hq.
      assert (N : no_trade st (step cb polls data cap st i)).
      { destruct (read_window data i) as [[[ts prices] volumes]|]; trivial.
        unfold trade_outcome in Hc. rewrite Es, Hflat in Hc.
        assert (gtb (totalSignal (analyze this
                  {| prices := prices; volumes := volumes;
                     md_timestamp := ts |})) (signalThreshold this) = false)
          as E; [|now rewrite E in Hc].
        unfold gtb. apply ltb_ge.
        destruct (totalSignal_range this
                    {| prices := prices; volumes := volumes;
                       md_timestamp := ts |}) as [_ H1].
        eapply Qcle_trans; eassumption. }
      destruct N as (N1 & N2 & N3 & _ & _ & N6 & N7).
      repeat split; try congruence. apply Hq; congruence. }
  cbv zeta. split.
  - destruct (Inv k) as (Es & Et & _ & _ & _ & Eq). repeat split; trivial.
  - intros r Hr. apply backtest_trades in Hr. subst r.
    destruct (Inv (length (indices this data))) as (Es & Et & Ec & Ew & El & Eq).
    cbn [summary trades totalTrades r_profit equity].
    rewrite Et, Ew, El, Ec. repeat split; trivial. ring.
Qed.

(** ** Reads: windows, and what a [null] candle does *)

Lemma map_field_length (f : Candle -> num) (window : list (option Candle))
    (xs : list num) :
  map_field f window = Some xs -> length xs = length window.
Proof.
  revert xs. induction window as [|[d|] window IH]; intros xs H; cbn in H.
  - now inversion H.
  - destruct (map_field f window) as [ys|]; [|discriminate].
    inversion H; subst. cbn. now rewrite (IH ys eq_refl).
  - discriminate.
Qed.

Lemma map_field_none (f : Candle -> num) (window : list (option Candle)) :
  In None window -> map_field f window = None.
Proof.
  induction window as [|[d|] window IH]; intros H; cbn.
  - contradiction.
  - destruct H as [H|H]; [discriminate|]. now rewrite (IH H).
  - reflexivity.
Qed.

Lemma read_window_window (data : list (option Candle)) (i : nat) :
  slice data 0 (Z.of_nat i + 1) = firstn (S i) data.
Proof.
  replace (Z.of_nat i + 1)%Z with (Z.of_nat (S i)) by lia.
  apply slice_prefix.
Qed.

(** X22.  [analyze] never sees a short window: at a visited index [i]
    whose reads succeed, the price and volume arrays both have [i + 1]
    entries, and that is at least 27. *)
Theorem windows_are_long :
  forall (this : WeightedStrategy) (data : list (option Candle))
         (i : nat) (ts : Z) (prices volumes : list num),
    In i (indices this data) ->
    read_window data i = Some (ts, prices, volumes) ->
    length prices = S i /\ length volumes = S i /\ (27 <= S i)%nat.
Proof.
  intros this data i ts prices volumes Hi H.
  unfold indices in Hi. apply in_seq in Hi.
  assert (Hmin : (26 <= minCandles this)%nat) by (unfold minCandles; lia).
  unfold read_window in H. rewrite read_window_window in H.
  destruct (map_field close (firstn (S i) data)) as [ps|] eqn:Ep;
    [|discriminate].
  destruct (map_field c_volume (firstn (S i) data)) as [vs|] eqn:Ev;
    [|discriminate].
  destruct (nth_error data i) as [[d|]|]; try discriminate.
  inversion H; subst.
  apply map_field_length in Ep, Ev. rewrite length_firstn in Ep, Ev.
  repeat split; lia.
Qed.

Lemma read_window_after_null (data : list (option Candle)) (k i : nat) :
  nth_error data k = Some None -> (k <= i)%nat -> read_window data i = None.
Proof.
  intros Hk Hle. unfold read_window. rewrite read_window_window.
  assert (Hin : In None (firstn (S i) data)).
  { apply (nth_error_In _ k). rewrite nth_error_firstn.
    destruct (k <? S i)%nat eqn:E; [exact Hk|]. apply Nat.ltb_ge in E. lia. }
  now rewrite (map_field_none close _ Hin).
Qed.

Lemma state_after_equity_length (this : WeightedStrategy) (onProgress : bool)
    (polls : nat -> nat) (data : list (option Candle)) (cap : num) (n : nat) :
  (length (l_equity (state_after this onProgress polls data cap n)) <= S n)%nat.
Proof.
  induction n as [|n IH]; [cbn; lia|].
  rewrite state_after_S. destruct (nth_error (indices this data) n) as [i|];
    [|lia].
  pose proof (step_equity onProgress polls data cap
                (state_after this onProgress polls data cap n) i) as E.
  cbv zeta in E. destruct (read_window data i); rewrite E.
  - rewrite length_app. cbn [length]. lia.
  - lia.
Qed.

(** X23.  One [null] candle stops the bookkeeping for good: every window
    from its index on contains it, so every later step raises and is
    skipped.  With the [null] at index [k], the locals after any number
    of steps are those after the first [k - minCandles] steps, and the
    result is the one reached then: its equity curve has at most
    [1 + (k - minCandles)] entries. *)
Theorem null_candle_stops_the_run :
  forall (this : WeightedStrategy) (onProgress : bool) (polls : nat -> nat)
         (data : list (option Candle)) (initialCapital : num) (k : nat),
    nth_error data k = Some None ->
    let j := (k - minCandles this)%nat in
    let reached := state_after this onProgress polls data initialCapital j in
    (forall n, (j <= n)%nat ->
       same_locals (state_after this onProgress polls data initialCapital n)
                   reached) /\
    (forall r,
       returned (backtest this (Array data) initialCapital onProgress polls)
         = inr r ->
       r = summary initialCapital reached /\
       (length (equity r) <= 1 + j)%nat).
Proof.
  intros this cb polls data cap k Hk j reached.
  assert (Hall : forall n, (j <= n)%nat ->
            same_locals (state_after this cb polls data cap n) reached).
  { induction 1 as [|n Hle IH]; [apply same_locals_refl|].
    rewrite state_after_S.
    destruct (nth_error (indices this data) n) as [i|] eqn:Ei; [|exact IH].
    unfold indices in Ei. rewrite nth_error_seq in Ei.
    destruct (n <? _)%nat; [|discriminate]. inversion Ei; subst i.
    pose proof (step_locals cb polls data cap
                  (state_after this cb polls data cap n)
                  (minCandles this + n)) as Hs.
    rewrite (read_window_after_null data k (minCandles this + n) Hk) in Hs
      by (subst j; lia).
    eapply same_locals_trans; eassumption. }
  split; [exact Hall|]. intros r Hr. apply backtest_trades in Hr.
  destruct (Nat.le_gt_cases j (length (indices this data))) as [Hj|Hj].
  - rewrite (summary_locals cap _ _ (Hall _ Hj)) in Hr. split; [exact Hr|].
    subst r. cbn [summary equity]. apply state_after_equity_length.
  - assert (E : state_after this cb polls data cap (length (indices this data))
                = reached).
    { subst reached. unfold state_after. now rewrite !firstn_all2 by lia. }
    rewrite E in Hr. split; [exact Hr|].
    subst r. cbn [summary equity]. apply state_after_equity_length.
Qed.

(** ** Capital, drawdown and the pairing of trades *)












(** ** The summary *)

Lemma of_nat_add (a b : nat) : of_nat (a + b) = of_nat a + of_nat b.
Proof.
  induction a as [|a IH]; cbn [Nat.add].
  - rewrite of_nat_0. ring.
  - rewrite !of_nat_S, IH. ring.
Qed.

Lemma of_nat_zero_iff (n : nat) : of_nat n = 0 <-> n = 0%nat.
Proof.
  split; [|intros ->; apply of_nat_0].
  intros E. destruct n as [|n]; trivial.
  exfalso. exact (of_nat_nonzero (S n) ltac:(lia) E).
Qed.

(** X26.  The win rate of a result is a percentage: between 0 and 100, 0
    exactly when no trade was won (in particular when none was closed),
    and 100 exactly when at least one trade was closed and none was
    lost. *)
Theorem winRate_is_a_percentage :
  forall (this : WeightedStrategy) (onProgress : bool) (polls : nat -> nat)
         (data : list (option Candle)) (initialCapital : num)
         (r : BacktestResult),
    returned (backtest this (Array data) initialCapital onProgress polls)
      = inr r ->
    (0 <= winRate r /\ winRate r <= dec 100 1) /\
    (winRate r = 0 <-> winningTrades r = 0%nat) /\
    (winRate r = dec 100 1 <->
       (0 < totalTrades r)%nat /\ losingTrades r = 0%nat).
Proof.
  intros this cb polls data cap r Hr. apply backtest_trades in Hr. subst r.
  cbn [summary winRate winningTrades losingTrades totalTrades].
  set (st := state_after this cb polls data cap _).
  set (W := l_winningTrades st). set (L := l_losingTrades st).
  destruct (0 <? W + L)%nat eqn:E.
  - apply Nat.ltb_lt in E.
    pose proof (of_nat_pos (W + L) E) as Ht.
    pose proof (of_nat_nonneg W) as Hw. pose proof (of_nat_nonneg L) as Hl.
    assert (Hnz : of_nat (W + L) <> 0) by now apply of_nat_nonzero.
    rewrite of_nat_add in *.
    set (w := of_nat W) in *. set (l := of_nat L) in *.
    assert (Hq : 0 <= w / (w + l) /\ w / (w + l) <= 1).
    { split; to_Q.
      - apply Qle_shift_div_l; lra.
      - apply Qle_shift_div_r; lra. }
    destruct Hq as [Hq0 Hq1].
    assert (Hmul : w / (w + l) * (w + l) = w) by (field; exact Hnz).
    set (q := w / (w + l)) in *.
    split; [split; to_Q; lra|]. split; split.
    + intros E0. assert (q = 0) as Eq by (to_Q; lra).
      rewrite Eq in Hmul. apply of_nat_zero_iff. subst w. rewrite <- Hmul. ring.
    + intros E0. assert (w = 0) as Ew by (subst w; now apply of_nat_zero_iff).
      rewrite Ew in Hmul. 
      assert (q = 0) as ->.
      { destruct (Qcmult_integral _ _ Hmul) as [Hz|Hz]; trivial.
        rewrite Ew in Hnz. contradiction. }
      ring.
    + intros E1. split; [exact E|].
      assert (q = 1) as Eq by (to_Q; lra).
      rewrite Eq in Hmul. apply of_nat_zero_iff. fold l.
      assert (1 * (w + l) = w) as Hm by exact Hmul.
      to_Q. lra.
    + intros [_ E0]. assert (l = 0) as El by (subst l; now apply of_nat_zero_iff).
      assert (q = 1) as ->.
      { subst q. rewrite El. field. rewrite El in Hnz.
        intros Ew. apply Hnz. rewrite Ew. ring. }
      ring.
  - apply Nat.ltb_ge in E. assert (W = 0%nat /\ L = 0%nat) as [EW EL] by lia.
    split; [split; by_eval|]. split; split; trivial.
    + intros E1. exfalso. apply this_eq in E1. vm_compute in E1. discriminate.
    + intros [H _]. lia.
Qed.

Lemma returns_from_const (c : num) (rest : list num) :
  Forall (fun e => e = c) rest ->
  Forall (fun x => x = 0) (returns_from c rest).
Proof.
  induction 1 as [|e rest He _ IH]; cbn [returns_from]; constructor.
  - rewrite He. unfold Qcdiv. ring.
  - now rewrite He.
Qed.

Lemma sharpe_flat (c : num) (equity : list num) :
  Forall (fun e => e = c) equity -> sharpe equity = 0.
Proof.
  intros H. unfold sharpe.
  assert (Ea : averageReturn equity = 0).
  { unfold averageReturn. rewrite sum_all_zero; [unfold Qcdiv; ring|].
    destruct H as [|e rest He Hrest]; cbn [returns]; constructor; trivial.
    rewrite He. now apply returns_from_const. }
  rewrite Ea. destruct (eqb (stdDev equity) 0); trivial.
  unfold Qcdiv. ring.
Qed.

Lemma step_no_sell_drawdown (onProgress : bool) (polls : nat -> nat)
    (data : list (option Candle)) (cap : num) (st : Loop) (i : nat) :
  let st' := step onProgress polls data cap st i in
  (count_type tsell (l_trades st) = 0%nat -> maxDrawdown st = 0) ->
  count_type tsell (l_trades st') = 0%nat -> maxDrawdown st' = 0.
Proof.
  intros st' H Hc.
  destruct (step_trichotomy onProgress polls data cap st i)
    as [N|[[_ B]|[_ S]]]; fold st' in N || fold st' in B || fold st' in S.
  - destruct N as (_ & E2 & _ & _ & E5 & _). rewrite E5. apply H.
    now rewrite <- E2.
  - destruct B as (p & t & Et & Ety & _ & _ & _ & _ & _ & _ & _ & _ & _ & _
                     & Edd & _).
    rewrite Edd. apply H. rewrite Et, count_type_snoc in Hc. lia.
  - destruct S as (p & t & pr & Et & _ & Ety & _). exfalso.
    rewrite Et, count_type_snoc in Hc. unfold is_type in Hc.
    rewrite Ety in Hc. lia.
Qed.

(** X27.  A run in which no sell was made, whether it never bought or
    left its buy open, reports nothing but zeros: the equity curve is
    flat, so the Sharpe ratio is 0 whatever [Math.sqrt] returns, and the
    maximum drawdown is 0. *)
Theorem no_sell_zero_statistics :
  forall (this : WeightedStrategy) (onProgress : bool) (polls : nat -> nat)
         (data : list (option Candle)) (initialCapital : num)
         (r : BacktestResult),
    initialCapital <> 0 ->
    returned (backtest this (Array data) initialCapital onProgress polls)
      = inr r ->
    count_type tsell (trades r) = 0%nat ->
    sharpeRatio r = 0 /\ r_maxDrawdown r = 0 /\
    Forall (fun e => e = initialCapital) (equity r).
Proof.
  intros this cb polls data cap r _ Hr Hc. apply backtest_trades in Hr.
  subst r. cbn [summary trades sharpeRatio r_maxDrawdown equity] in *.
  set (n := length (indices this data)) in *.
  assert (Hacc : accounting cap (state_after this cb polls data cap n)).
  { apply (state_after_ind (accounting cap)).
    - apply init_accounting.
    - intros st0 i. apply step_accounting. }
  destruct Hacc as (_ & _ & _ & Hbuy & Heq).
  assert (Hflat : Forall (fun e => e = cap)
                    (l_equity (state_after this cb polls data cap n))).
  { revert Heq. apply Forall_impl. intros e (m & _ & ->).
    rewrite no_sell_no_profit by assumption. ring. }
  assert (Hdd : count_type tsell
                  (l_trades (state_after this cb polls data cap n)) = 0%nat ->
                maxDrawdown (state_after this cb polls data cap n) = 0).
  { apply (state_after_ind (fun st =>
      count_type tsell (l_trades st) = 0%nat -> maxDrawdown st = 0)).
    - reflexivity.
    - intros st i. apply step_no_sell_drawdown. }
  split; [now apply (sharpe_flat cap)|]. split; [|exact Hflat].
  rewrite (Hdd Hc). ring.
Qed.

(** X28.  A series no longer than the warm-up, [max(rsiPeriod + 1, 26)]
    candles, is not an error: no index is visited, no call reaches the
    callback, the instance is untouched, and the result is the empty one,
    with the initial capital as its single equity entry. *)
Theorem short_series_empty_result :
  forall (this : WeightedStrategy) (onProgress : bool) (polls : nat -> nat)
         (data : list (option Candle)) (initialCapital : num),
    data <> [] ->
    (Z.of_nat (length data) <= Z.max (rsiPeriod this + 1) 26)%Z ->
    let out := backtest this (Array data) initialCapital onProgress polls in
    progress out = [] /\ instance out = this /\
    exists r, returned out = inr r /\
      trades r = [] /\ equity r = (initialCapital :: nil) /\
      totalTrades r = 0%nat /\ winRate r = 0 /\ r_profit r = 0 /\
      r_maxDrawdown r = 0 /\ sharpeRatio r = 0.
Proof.
  intros this cb polls data cap Hne Hlen out. subst out.
  destruct data as [|d data]; [congruence|].
  cbn [backtest progress instance returned].
  assert (E : indices this (d :: data) = []).
  { unfold indices, minCandles.
    replace (length (d :: data) - Z.to_nat (Z.max (rsiPeriod this + 1) 26))%nat
      with 0%nat by lia.
    reflexivity. }
  rewrite E. cbn [run fold_left init emitted self].
  split; [reflexivity|]. split; [reflexivity|].
  eexists. split; [reflexivity|].
  cbn [summary trades equity totalTrades winRate r_profit r_maxDrawdown
       sharpeRatio l_trades l_equity l_winningTrades l_losingTrades
       currentCapital maxDrawdown Nat.add Nat.ltb Nat.leb].
  unfold init.
  cbn [l_trades l_equity l_winningTrades l_losingTrades currentCapital
       maxDrawdown Nat.add Nat.ltb Nat.leb].
  split; [reflexivity|]. split; [reflexivity|]. split; [reflexivity|].
  split; [reflexivity|]. split; [ring|]. split; [ring|].
  apply (sharpe_flat cap). now repeat constructor.
Qed.

(** ** What the log and the callback are given *)

Lemma trade_record (ts : Z) (result : StrategyResult) (p : num)
    (last : Analysis) (st : Loop) :
  let st' := trade ts result p last st in
  signalThreshold (self st') = signalThreshold (self st) /\
  (l_trades st' = l_trades st \/
   exists t, l_trades st' = l_trades st ++ [t] /\
     price t = p /\ t_timestamp t = ts /\ indicators t = Some last /\
     (type t = tbuy -> signalThreshold (self st) < totalSignal result) /\
     (type t = tsell -> totalSignal result < - signalThreshold (self st))).
Proof.
  cbv zeta. unfold trade. destruct (position (self st)).
  - destruct (gtb _ _) eqn:E; [|split; [reflexivity | now left]].
    apply ltb_lt in E. split; [reflexivity|]. right. eexists.
    split; [reflexivity|]. cbn. repeat split; trivial. discriminate.
  - destruct (ltb _ _) eqn:E; [|split; [reflexivity | now left]].
    apply ltb_lt in E. split; [reflexivity|]. right. eexists.
    split; [reflexivity|]. cbn. repeat split; trivial. discriminate.
Qed.

(** X29.  Every trade of the returned log was made on a candle of the
    data: its price is that candle's close and its timestamp that
    candle's timestamp; and it carries the analysis that triggered it, a
    composite signal above the threshold for a buy and below minus the
    threshold for a sell. *)
Theorem trades_come_from_candles :
  forall (this : WeightedStrategy) (onProgress : bool) (polls : nat -> nat)
         (data : list (option Candle)) (initialCapital : num)
         (r : BacktestResult) (t : Trade),
    returned (backtest this (Array data) initialCapital onProgress polls)
      = inr r ->
    In t (trades r) ->
    (exists i d, nth_error data i = Some (Some d) /\
       price t = close d /\ t_timestamp t = timestamp d) /\
    (exists a, indicators t = Some a /\
       (type t = tbuy -> signalThreshold this < a_totalSignal a) /\
       (type t = tsell -> a_totalSignal a < - signalThreshold this)).
Proof.
  intros this cb polls data cap r t Hr Hin. apply backtest_trades in Hr.
  subst r. cbn [summary trades] in Hin.
  set (good := fun t : Trade =>
    (exists i d, nth_error data i = Some (Some d) /\
       price t = close d /\ t_timestamp t = timestamp d) /\
    (exists a, indicators t = Some a /\
       (type t = tbuy -> signalThreshold this < a_totalSignal a) /\
       (type t = tsell -> a_totalSignal a < - signalThreshold this))).
  assert (Inv : forall n,
    let st := state_after this cb polls data cap n in
    signalThreshold (self st) = signalThreshold this /\
    Forall good (l_trades st)).
  { intros n. cbv zeta.
    apply (state_after_ind (fun st =>
      signalThreshold (self st) = signalThreshold this /\
      Forall good (l_trades st))).
    - split; [reflexivity | constructor].
    - intros st i [Hthr Hall].
      pose proof (step_locals cb polls data cap st i) as Hl.
      destruct (read_window data i) as [[[ts prices] volumes]|] eqn:Hread.
      + destruct Hl as (E1 & E2 & _). rewrite E1, E2.
        unfold traded, push_equity. cbn [self l_trades].
        set (result := analyze (self st) _).
        destruct (trade_record ts result (last_elem prices)
                    (analysis_of result) st) as [Hs Ht].
        split; [congruence|].
        destruct Ht as [->|(u & -> & Hp & Hts & Hind & Hb & Hse)]; trivial.
        apply Forall_app. split; trivial. constructor; [|constructor].
        destruct (read_window_current _ _ _ _ _ Hread) as (d & Hd & Ets & El).
        split.
        * exists i, d. repeat split; congruence.
        * exists (analysis_of result). rewrite <- Hthr.
          repeat split; trivial.
      + destruct Hl as (E1 & E2 & _). now rewrite E1, E2. }
  destruct (Inv (length (indices this data))) as [_ Hall].
  rewrite Forall_forall in Hall. exact (Hall t Hin).
Qed.

Lemma calls_at_app (j : nat) (b : bool) (l1 l2 : list BacktestProgress) :
  calls_at j b (l1 ++ l2) = calls_at j b l1 ++ calls_at j b l2.
Proof. apply filter_app. Qed.

Lemma calls_at_notices (data : list (option Candle)) (cap : num)
    (i j n : nat) (st : Loop) :
  let notices := repeat (snapshot data cap i true None st) n in
  length (calls_at j true notices) = (if Nat.eq_dec i j then n else 0%nat) /\
  calls_at j false notices = [].
Proof.
  cbv zeta. unfold calls_at.
  induction n as [|n [IH1 IH2]].
  - cbn. split; [now destruct (Nat.eq_dec i j) | reflexivity].
  - cbn [repeat filter snapshot currentCandle p_isPaused Bool.eqb].
    rewrite andb_false_r, andb_true_r, IH2.
    split; [|reflexivity].
    destruct (Nat.eq_dec i j) as [E|E].
    + apply Nat.eqb_eq in E. rewrite E. cbn [length]. now rewrite IH1.
    + apply Nat.eqb_neq in E. now rewrite E.
Qed.

Lemma run_calls (polls : nat -> nat) (data : list (option Candle))
    (cap : num) (idx : list nat) (st : Loop) :
  exists new,
    emitted (run true polls data cap idx st) = emitted st ++ new /\
    (forall j,
       length (calls_at j true new)
         = (count_occ Nat.eq_dec idx j * polls j)%nat /\
       (length (calls_at j false new) <= count_occ Nat.eq_dec idx j)%nat) /\
    Forall (fun p => In (currentCandle p) idx /\
                     totalCandles p = length data /\
                     p_initialCapital p = cap) new.
Proof.
  revert st. induction idx as [|i idx IH]; intros st.
  - exists []. cbn. rewrite app_nil_r.
    split; [reflexivity|]. split; [intros j; split; [reflexivity | lia]|].
    constructor.
  - change (run true polls data cap (i :: idx) st)
      with (run true polls data cap idx (step true polls data cap st i)).
    destruct (IH (step true polls data cap st i)) as (new & E & Hat & Hall).
    destruct (step_emitted polls data cap st i) as (last & Es).
    cbv zeta in Es. rewrite E, Es. clear E Es.
    match goal with
    | |- context [if ?c then ?a else ?b] =>
        assert (Hs : (forall j,
                        calls_at j true (if c then a else b) = [] /\
                        (length (calls_at j false (if c then a else b))
                         <= (if Nat.eq_dec i j then 1 else 0))%nat)
                     /\ Forall (fun p => In (currentCandle p) (i :: idx) /\
                                  totalCandles p = length data /\
                                  p_initialCapital p = cap)
                               (if c then a else b));
        [destruct c;
         [split;
          [intros j; unfold calls_at;
           cbn [filter snapshot currentCandle p_isPaused Bool.eqb];
           rewrite andb_false_r, andb_true_r;
           split; [reflexivity|];
           destruct (Nat.eq_dec i j) as [Eij|Eij];
           [apply Nat.eqb_eq in Eij; rewrite Eij; cbn [length]; lia
           |apply Nat.eqb_neq in Eij; rewrite Eij; cbn [length]; lia]
          |constructor; [|constructor]; cbn; repeat split; trivial; now left]
         |split; [intros j; split; [reflexivity|cbn; lia] | constructor]]|];
        set (shown := if c then a else b) in *
    end.
    destruct Hs as (Hs1 & Hs3).
    exists (repeat (snapshot data cap i true None st) (polls i) ++ shown ++ new).
    rewrite <- !app_assoc. split; [reflexivity|]. split.
    + intros j. rewrite !calls_at_app, !length_app.
      destruct (calls_at_notices data cap i j (polls i) st) as [Hn1 Hn2].
      cbv zeta in Hn1, Hn2. rewrite Hn1, Hn2.
      destruct (Hs1 j) as [Hj1 Hj2]. rewrite Hj1.
      destruct (Hat j) as [Ha1 Ha2]. rewrite Ha1.
      cbn [length app count_occ].
      destruct (Nat.eq_dec i j) as [Eij|Eij].
      * subst j. split; lia.
      * split; lia.
    + apply Forall_app. split; [|apply Forall_app; split; [exact Hs3|]].
      * apply Forall_forall. intros p Hin. apply repeat_spec in Hin. subst p.
        cbn. repeat split; trivial. now left.
      * revert Hall. apply Forall_impl. intros p (H1 & H2 & H3).
        repeat split; trivial. now right.
Qed.

(** X30.  What reaches a supplied callback.  For every visited index
    [i]: exactly [polls i] calls with [isPaused] set name it, one per poll
    that found the run paused there, and at most one call with [isPaused]
    unset does.  Every call names a visited index, the length of the data
    and the initial capital, so there is no call for any other index.
    Without a callback no call is made. *)
Theorem callback_calls :
  forall (this : WeightedStrategy) (polls : nat -> nat)
         (data : list (option Candle)) (initialCapital : num),
    data <> [] ->
    let calls :=
      progress (backtest this (Array data) initialCapital true polls) in
    (forall i, In i (indices this data) ->
       length (calls_at i true calls) = polls i /\
       (length (calls_at i false calls) <= 1)%nat) /\
    Forall (fun p => In (currentCandle p) (indices this data) /\
                     totalCandles p = length data /\
                     p_initialCapital p = initialCapital) calls /\
    progress (backtest this (Array data) initialCapital false polls) = [].
Proof.
  intros this polls data cap Hne calls. subst calls.
  destruct data as [|d data]; [congruence|].
  cbn [backtest progress].
  destruct (run_calls polls (d :: data) cap (indices this (d :: data))
              (init this cap)) as (new & E & Hat & Hall).
  cbn [init emitted app] in E. rewrite E.
  split; [|split; [exact Hall | apply no_callback_no_calls]].
  intros i Hi.
  assert (Hone : count_occ Nat.eq_dec (indices this (d :: data)) i = 1%nat).
  { apply NoDup_count_occ'; [apply seq_NoDup | exact Hi]. }
  destruct (Hat i) as [H1 H2]. rewrite Hone in H1, H2.
  split; [lia | exact H2].
Qed.

End Engine.

(** * The engine on concrete data *)

Import Scenario.

(** Closed comparisons and equations of rationals, by evaluation. *)
Ltac by_eval :=
  first [ apply Qc_is_canon; vm_compute; reflexivity
        | apply ltb_lt; vm_compute; reflexivity
        | apply geb_le; vm_compute; reflexivity ].

Lemma eqb_neq (x y : num) : eqb x y = false -> x <> y.
Proof. intros H E. apply eqb_eq in E. congruence. Qed.

(** The round trip of the C4 scenario, run by the whole engine: a buy at
    100 with size 9.5, a sell at 110 with profit 95. *)
Example round_trip_run :
  exists r b s,
    returned (backtest sqrt_approx strategy (Array round_trip) (dec 1000 1)
                       true never_paused) = inr r /\
    trades r = [b; s] /\
    (type b = tbuy /\ price b = dec 100 1 /\ size b = dec 95 10) /\
    (type s = tsell /\ price s = dec 110 1 /\ realized s = dec 95 1) /\
    r_profit r = dec 95 1 /\ winningTrades r = 1%nat /\
    losingTrades r = 0%nat /\ winRate r = dec 100 1 /\
    length (equity r) = 33%nat.
Proof.
  eexists. eexists. eexists. split; [vm_compute; reflexivity|].
  split; [reflexivity|].
  cbn [type price size realized profit r_profit winningTrades losingTrades
       winRate equity length].
  repeat split; by_eval.
Qed.

(** C9.  [backtest] never resets [position], [entryPrice] or
    [positionSize] on entry.  Whatever [Math.sqrt] is: a call that visits
    no index gives the instance back as it was, and a call on an instance
    that is long, whose first visited step has a sell signal, returns a
    trade log that begins with a sell, its profit taken against the entry
    price and size found on entry.  And it happens: a first call on a
    fresh instance with the candles [dip] ends long (entry 100, size 9.5),
    and a second call on the same instance with the candles [spike]
    returns a log made of one sell, of profit (160 - 100) * 9.5 = 570, with
    no buy before it. *)
Theorem backtest_never_resets_position :
  (forall (Math_sqrt : num -> num) (this : WeightedStrategy)
          (onProgress : bool) (polls : nat -> nat)
          (data : list (option Candle)) (initialCapital : num),
     (data <> [] -> (length data <= minCandles this)%nat ->
        instance (backtest Math_sqrt this (Array data) initialCapital
                           onProgress polls) = this) /\
     (forall (ts : Z) (prices volumes : list num),
        position this = long ->
        (minCandles this < length data)%nat ->
        read_window data (minCandles this) = Some (ts, prices, volumes) ->
        totalSignal
          (analyze Math_sqrt this
             {| prices := prices; volumes := volumes; md_timestamp := ts |})
          < - signalThreshold this ->
        exists r t rest,
          returned (backtest Math_sqrt this (Array data) initialCapital
                             onProgress polls) = inr r /\
          trades r = t :: rest /\ type t = tsell /\
          price t = last_elem prices /\ size t = positionSize this /\
          profit t
            = Some ((last_elem prices - entryPrice this) * positionSize this)))
  /\
  (let first :=
     backtest sqrt_approx strategy (Array dip) (dec 1000 1) false never_paused in
   let second :=
     backtest sqrt_approx (instance first) (Array spike) (dec 1000 1) false
              never_paused in
   (exists r1 b, returned first = inr r1 /\ trades r1 = [b]%list /\ type b = tbuy) /\
   position (instance first) = long /\
   entryPrice (instance first) = dec 100 1 /\
   positionSize (instance first) = dec 95 10 /\
   exists r2 s,
     returned second = inr r2 /\ trades r2 = [s]%list /\ type s = tsell /\
     price s = dec 160 1 /\ realized s = dec 570 1 /\
     position (instance second) = none).
Proof.
  split; [intros; apply backtest_keeps_position|].
  intros first second.
  split. { eexists. eexists. split; [vm_compute; reflexivity|]. split; reflexivity. }
  split; [vm_compute; reflexivity|].
  split; [by_eval|]. split; [by_eval|].
  eexists. eexists. split; [vm_compute; reflexivity|].
  split; [reflexivity|]. cbn [type price realized profit].
  split; [reflexivity|]. split; [by_eval|]. split; [by_eval|].
  vm_compute. reflexivity.
Qed.

(** The claim C1 as the specification words it fails on the engine: on the
    round trip the reported ratio is not the ratio of the per-step returns
    [i >= 1] alone; and on the run that starts long and sells at its only
    step (equity 1000, 1570) those returns have deviation 0 while the
    reported ratio is not 0. *)
Lemma sharpe_not_of_step_returns :
  (exists r,
     returned (backtest sqrt_approx strategy (Array round_trip) (dec 1000 1)
                        true never_paused) = inr r /\
     (2 <= length (equity r))%nat /\
     sharpeRatio r <> sharpe_of sqrt_approx (step_returns (equity r))) /\
  (exists r,
     returned
       (backtest sqrt_approx
          (instance (backtest sqrt_approx strategy (Array dip) (dec 1000 1)
                              true never_paused))
          (Array spike) (dec 1000 1) true never_paused) = inr r /\
     (2 <= length (equity r))%nat /\
     population_std sqrt_approx (step_returns (equity r)) = 0 /\
     sharpeRatio r <> 0).
Proof.
  split.
  - eexists. split; [vm_compute; reflexivity|]. cbn [equity sharpeRatio].
    split; [cbn [length]; lia|]. apply eqb_neq. vm_compute. reflexivity.
  - eexists. split; [vm_compute; reflexivity|]. cbn [equity sharpeRatio].
    split; [cbn [length]; lia|]. split; [by_eval|].
    apply eqb_neq. vm_compute. reflexivity.
Qed.


(** ** The theorems at the concrete runs *)

Lemma round_trip_well_formed : well_formed round_trip.
Proof.
  unfold well_formed, round_trip, rising. cbn [seq map app candles_from].
  repeat (constructor; [discriminate|]). constructor.
Defined.

(** C1 on the round trip: 33 equity entries, 33 returns. *)
Lemma sharpe_ratio_witness :
  exists r,
    returned (backtest sqrt_approx strategy (Array round_trip) (dec 1000 1)
                       true never_paused) = inr r /\
    (2 <= length (equity r))%nat /\
    length (0 :: step_returns (equity r)) = length (equity r).
Proof.
  eexists. split; [vm_compute; reflexivity|].
  match goal with
  | |- (2 <= length (equity ?r))%nat /\ _ =>
      assert (H : (2 <= length (equity r))%nat) by (cbn [equity length]; lia);
      split; [exact H|];
      refine (proj1 (sharpe_ratio_of_padded_returns sqrt_approx strategy true
                       never_paused round_trip (dec 1000 1) r _ H))
  end.
  vm_compute. reflexivity.
Defined.

(** C2 on the round trip: 58 candles, warm-up 26, 33 equity entries. *)
Lemma backtest_equity_length_witness :
  round_trip <> [] /\ well_formed round_trip /\
  (Z.max (rsiPeriod strategy + 1) 26 <= Z.of_nat (length round_trip))%Z /\
  exists r,
    returned (backtest sqrt_approx strategy (Array round_trip) (dec 1000 1)
                       true never_paused) = inr r /\
    Z.of_nat (length (equity r)) = 33%Z /\
    nth_error (equity r) 0 = Some (dec 1000 1).
Proof.
  assert (H1 : round_trip <> []) by discriminate.
  assert (H3 : (Z.max (rsiPeriod strategy + 1) 26
                <= Z.of_nat (length round_trip))%Z)
    by (vm_compute; discriminate).
  split; [exact H1|]. split; [exact round_trip_well_formed|].
  split; [exact H3|].
  destruct (backtest_equity_length sqrt_approx strategy round_trip (dec 1000 1)
              true never_paused H1 round_trip_well_formed H3)
    as (r & Hr & _ & Hlen & H0).
  exists r. split; [exact Hr|]. split; [exact Hlen | exact H0].
Defined.

(** C3 on the round trip, after 31 steps: long, one buy open. *)
Lemma position_invariant_witness :
  position strategy = none /\
  open_positions
    (l_trades (state_after sqrt_approx strategy true never_paused round_trip
                           (dec 1000 1) 31)) = 1%Z.
Proof.
  split; [reflexivity|].
  destruct (position_invariant sqrt_approx strategy true never_paused
              round_trip (dec 1000 1) 31 eq_refl) as (_ & H & _).
  rewrite H. vm_compute. reflexivity.
Defined.

(** C4 at the sell step of the round trip (index 57, close 110). *)
Lemma sell_closes_position_witness :
  let st := state_after sqrt_approx strategy true never_paused round_trip
                        (dec 1000 1) 31 in
  position (self st) = long /\
  currentCapital (step sqrt_approx true never_paused round_trip (dec 1000 1)
                       st 57)
  = currentCapital st
    + (last_elem (map (fun d => match d with Some c => close c | None => 0 end)
                      round_trip)
       - entryPrice (self st)) * positionSize (self st).
Proof.
  intros st.
  assert (Hlong : position (self st) = long) by (vm_compute; reflexivity).
  split; [exact Hlong|].
  refine (proj1 (proj2 (proj1 (sell_closes_position sqrt_approx) true
            never_paused round_trip (dec 1000 1) st 57%nat 57%Z
            (map (fun d => match d with Some c => close c | None => 0 end)
                 round_trip)
            (map (fun d => match d with Some c => c_volume c | None => 0 end)
                 round_trip)
            Hlong _ _))).
  - vm_compute. reflexivity.
  - apply ltb_lt. vm_compute. reflexivity.
Defined.


(** C8 at the first step of the round trip (index 26, the buy). *)
Lemma progress_emission_witness :
  nth_error (indices strategy round_trip) 0 = Some 26%nat /\
  succeeds round_trip 26 = true /\
  exists p,
    In p (progress (backtest sqrt_approx strategy (Array round_trip)
                             (dec 1000 1) true never_paused)) /\
    currentCandle p = 26%nat /\ p_isPaused p = false.
Proof.
  assert (H1 : nth_error (indices strategy round_trip) 0 = Some 26%nat)
    by reflexivity.
  assert (H2 : succeeds round_trip 26 = true) by (vm_compute; reflexivity).
  split; [exact H1|]. split; [exact H2|].
  apply (proj2 (proj1 (progress_emission sqrt_approx strategy never_paused
                         round_trip (dec 1000 1) 0 26 H1 H2))).
  right. vm_compute. discriminate.
Defined.


(** The rejection of the empty array, with the instance that [dip] left
    long. *)
Lemma backtest_invalid_input_witness :
  let this :=
    instance (backtest sqrt_approx strategy (Array dip) (dec 1000 1) true
                       never_paused) in
  let out := backtest sqrt_approx this (Array []) (dec 1000 1) true
                      never_paused in
  returned out = inl InvalidHistoricalData /\
  progress out = [] /\ position (instance out) = position this.
Proof.
  intros this out.
  destruct (backtest_invalid_input sqrt_approx this (Array []) (dec 1000 1)
              true never_paused) as (_ & H1 & _ & H3).
  destruct (H3 (or_intror eq_refl)) as (_ & Hp & _ & Hpos & _).
  split; [exact (proj2 H1 (or_intror eq_refl))|]. split; [exact Hp | exact Hpos].
Defined.

(** C9 on the second call: the instance that [dip] left long, the candles
    [spike]. *)
Lemma backtest_never_resets_position_witness :
  let this :=
    instance (backtest sqrt_approx strategy (Array dip) (dec 1000 1) false
                       never_paused) in
  position this = long /\
  exists r t rest,
    returned (backtest sqrt_approx this (Array spike) (dec 1000 1) false
                       never_paused) = inr r /\
    trades r = t :: rest /\ type t = tsell.
Proof.
  intros this.
  assert (Hlong : position this = long) by (vm_compute; reflexivity).
  split; [exact Hlong|].
  assert (Hlen : (minCandles this < length spike)%nat)
    by (apply Nat.ltb_lt; vm_compute; reflexivity).
  destruct (proj2 (proj1 backtest_never_resets_position sqrt_approx this false
                     never_paused spike (dec 1000 1))
              26%Z
              (map (fun d => match d with Some c => close c | None => 0 end)
                   spike)
              (map (fun d => match d with Some c => c_volume c | None => 0 end)
                   spike)
              Hlong Hlen)
    as (r & t & rest & Hr & Ht & Hty & _).
  - vm_compute. reflexivity.
  - apply ltb_lt. vm_compute. reflexivity.
  - exists r, t, rest. split; [exact Hr|]. split; [exact Ht | exact Hty].
Defined.


(** ** The further properties at concrete inputs *)



(** X2 on three prices with the period 12. *)
Lemma calculateEMA_short_witness :
  (length [dec 100 1; dec 110 1; dec 105 1] <= 12)%nat /\
  calculateEMA [dec 100 1; dec 110 1; dec 105 1] 12
  = average [dec 100 1; dec 110 1; dec 105 1].
Proof.
  assert (H : (length [dec 100 1; dec 110 1; dec 105 1] <= 12)%nat)
    by (cbn [length]; lia).
  split; [exact H|].
  exact (calculateEMA_short [dec 100 1; dec 110 1; dec 105 1] 12 H).
Defined.

(** X4: the price 105 after 100, 110, with the period 2. *)
Lemma calculateEMA_next_witness :
  (2 <= length [dec 100 1; dec 110 1])%nat /\
  calculateEMA ([dec 100 1; dec 110 1] ++ [dec 105 1]) 2
  = (dec 105 1 - calculateEMA [dec 100 1; dec 110 1] 2) * multiplier 2
    + calculateEMA [dec 100 1; dec 110 1] 2.
Proof.
  assert (H : (2 <= length [dec 100 1; dec 110 1])%nat) by (cbn [length]; lia).
  split; [exact H|].
  exact (calculateEMA_next [dec 100 1; dec 110 1] 2 (dec 105 1) H).
Defined.


(** X9 on the prices 115, ..., 140, 100 with the default period: the last
    15 prices give the same RSI. *)
Lemma calculateRSI_window_witness :
  (1 <= 14)%Z /\
  calculateRSI (slice_from (map of_Z (rising ++ [100%Z])) (- (14 + 1))) 14
  = calculateRSI (map of_Z (rising ++ [100%Z])) 14.
Proof.
  assert (H : (1 <= 14)%Z) by lia.
  split; [exact H|].
  exact (calculateRSI_window (map of_Z (rising ++ [100%Z])) 14 H).
Defined.

(** X10 on the prices 100, 105, 105, 110. *)
Lemma calculateRSI_never_falls_witness :
  [dec 105 1; dec 105 1; dec 110 1] <> [] /\ (1 <= 14)%Z /\
  never_falls (dec 100 1) [dec 105 1; dec 105 1; dec 110 1] /\
  value (calculateRSI [dec 100 1; dec 105 1; dec 105 1; dec 110 1] 14)
  = dec 100 1 /\
  signal (calculateRSI [dec 100 1; dec 105 1; dec 105 1; dec 110 1] 14)
  = sell.
Proof.
  assert (H1 : [dec 105 1; dec 105 1; dec 110 1] <> []) by discriminate.
  assert (H2 : (1 <= 14)%Z) by lia.
  assert (H3 : never_falls (dec 100 1) [dec 105 1; dec 105 1; dec 110 1])
    by (cbn [never_falls]; repeat (split; [by_eval|]); exact I).
  split; [exact H1|]. split; [exact H2|]. split; [exact H3|].
  exact (calculateRSI_never_falls (dec 100 1) _ 14 H1 H2 H3).
Defined.

(** X11 on the prices 110, 105, 100. *)
Lemma calculateRSI_always_falls_witness :
  [dec 105 1; dec 100 1] <> [] /\ (1 <= 14)%Z /\
  always_falls (dec 110 1) [dec 105 1; dec 100 1] /\
  value (calculateRSI [dec 110 1; dec 105 1; dec 100 1] 14) = 0 /\
  signal (calculateRSI [dec 110 1; dec 105 1; dec 100 1] 14) = buy.
Proof.
  assert (H1 : [dec 105 1; dec 100 1] <> []) by discriminate.
  assert (H2 : (1 <= 14)%Z) by lia.
  assert (H3 : always_falls (dec 110 1) [dec 105 1; dec 100 1])
    by (cbn [always_falls]; repeat (split; [by_eval|]); exact I).
  split; [exact H1|]. split; [exact H2|]. split; [exact H3|].
  exact (calculateRSI_always_falls (dec 110 1) _ 14 H1 H2 H3).
Defined.


(** X15 on the prices 115, ..., 140, 100. *)
Lemma calculateBollingerBands_window_witness :
  map of_Z (rising ++ [100%Z]) <> [] /\
  calculateBollingerBands sqrt_approx
    (slice_from (map of_Z (rising ++ [100%Z])) (-20))
  = calculateBollingerBands sqrt_approx (map of_Z (rising ++ [100%Z])).
Proof.
  assert (H : map of_Z (rising ++ [100%Z]) <> [])
    by (vm_compute; discriminate).
  split; [exact H|].
  exact (calculateBollingerBands_window sqrt_approx _ H).
Defined.



(** X18 at the first step of the round trip (index 26, close 100): flat,
    the recommendation is [buy], the step buys. *)
Lemma trade_follows_recommendation_witness :
  let st := init strategy (dec 1000 1) in
  let closes :=
    map (fun d => match d with Some c => close c | None => 0 end)
        (firstn 27 round_trip) in
  let volumes :=
    map (fun d => match d with Some c => c_volume c | None => 0 end)
        (firstn 27 round_trip) in
  0 <= signalThreshold (self st) /\
  read_window round_trip 26 = Some (26%Z, closes, volumes) /\
  bought (last_elem closes) st
         (step sqrt_approx true never_paused round_trip (dec 1000 1) st 26).
Proof.
  intros st closes volumes.
  assert (H1 : 0 <= signalThreshold (self st)) by by_eval.
  assert (H2 : read_window round_trip 26 = Some (26%Z, closes, volumes))
    by (vm_compute; reflexivity).
  split; [exact H1|]. split; [exact H2|].
  pose proof (trade_follows_recommendation sqrt_approx true never_paused
                round_trip (dec 1000 1) st 26 26%Z closes volumes H1 H2) as H.
  cbv zeta in H.
  assert (E : recommendation
                (analyze sqrt_approx (self st)
                   {| prices := closes; volumes := volumes;
                      md_timestamp := 26 |}) = buy)
    by (vm_compute; reflexivity).
  rewrite E in H. exact H.
Defined.

(** X19 on the first window of the round trip: the recommendation is
    [buy], and three indicators say so. *)
Lemma recommendation_needs_agreement_witness :
  let window :=
    {| prices := map of_Z (rising ++ [100%Z]);
       volumes := repeat (dec 1000 1) 27; md_timestamp := 26 |} in
  dec 55 100 <= signalThreshold strategy /\
  recommendation (analyze sqrt_approx strategy window) = buy /\
  (3 <= count_signal buy (signals_of (analyze sqrt_approx strategy window)))%nat.
Proof.
  intros window.
  assert (H : dec 55 100 <= signalThreshold strategy) by by_eval.
  assert (E : recommendation (analyze sqrt_approx strategy window) = buy)
    by (vm_compute; reflexivity).
  split; [exact H|]. split; [exact E|].
  exact (proj1 (recommendation_needs_agreement sqrt_approx strategy
                  window H) E).
Defined.

(** X21: the round trip with a threshold of 1. *)
Lemma threshold_one_never_trades_witness :
  let this := new_WeightedStrategy 14 1 in
  position this = none /\ 1 <= signalThreshold this /\
  l_trades (state_after sqrt_approx this true never_paused round_trip
                        (dec 1000 1) 32) = [].
Proof.
  intros this.
  assert (H1 : position this = none) by reflexivity.
  assert (H2 : 1 <= signalThreshold this) by by_eval.
  split; [exact H1|]. split; [exact H2|].
  exact (proj1 (proj1 (threshold_one_never_trades sqrt_approx this true
                         never_paused round_trip (dec 1000 1) 32 H1 H2))).
Defined.

(** X22 at the first visited index of the round trip. *)
Lemma windows_are_long_witness :
  let closes :=
    map (fun d => match d with Some c => close c | None => 0 end)
        (firstn 27 round_trip) in
  let volumes :=
    map (fun d => match d with Some c => c_volume c | None => 0 end)
        (firstn 27 round_trip) in
  In 26%nat (indices strategy round_trip) /\
  read_window round_trip 26 = Some (26%Z, closes, volumes) /\
  length closes = 27%nat.
Proof.
  intros closes volumes.
  assert (H1 : In 26%nat (indices strategy round_trip))
    by (vm_compute; left; reflexivity).
  assert (H2 : read_window round_trip 26 = Some (26%Z, closes, volumes))
    by (vm_compute; reflexivity).
  split; [exact H1|]. split; [exact H2|].
  exact (proj1 (windows_are_long strategy round_trip 26 26%Z closes volumes
                  H1 H2)).
Defined.

(** X23: the round trip with a [null] put at index 30.  The buy at index
    26 is made; the sell at the last index is not. *)
Lemma null_candle_stops_the_run_witness :
  let data := firstn 30 round_trip ++ None :: skipn 30 round_trip in
  nth_error data 30 = Some None /\
  exists r,
    returned (backtest sqrt_approx strategy (Array data) (dec 1000 1) true
                       never_paused) = inr r /\
    (length (equity r) <= 1 + (30 - minCandles strategy))%nat /\
    length (trades r) = 1%nat.
Proof.
  intros data.
  assert (H : nth_error data 30 = Some None) by reflexivity.
  split; [exact H|].
  eexists. split; [vm_compute; reflexivity|].
  split; [|reflexivity].
  refine (proj2 (proj2 (null_candle_stops_the_run sqrt_approx strategy true
                          never_paused data (dec 1000 1) 30 H) _ _)).
  vm_compute. reflexivity.
Defined.



(** X26 on the round trip: one trade closed, won. *)
Lemma winRate_is_a_percentage_witness :
  exists r,
    returned (backtest sqrt_approx strategy (Array round_trip) (dec 1000 1)
                       true never_paused) = inr r /\
    0 <= winRate r /\ winRate r <= dec 100 1.
Proof.
  eexists. split; [vm_compute; reflexivity|].
  refine (proj1 (winRate_is_a_percentage sqrt_approx strategy true
                   never_paused round_trip (dec 1000 1) _ _)).
  vm_compute. reflexivity.
Defined.

(** X27 on [dip]: a buy left open. *)
Lemma no_sell_zero_statistics_witness :
  dec 1000 1 <> 0 /\
  exists r,
    returned (backtest sqrt_approx strategy (Array dip) (dec 1000 1)
                       true never_paused) = inr r /\
    count_type tsell (trades r) = 0%nat /\ length (trades r) = 1%nat /\
    sharpeRatio r = 0 /\ r_maxDrawdown r = 0.
Proof.
  assert (H1 : dec 1000 1 <> 0) by (apply eqb_neq; vm_compute; reflexivity).
  split; [exact H1|].
  eexists. split; [vm_compute; reflexivity|].
  match goal with
  | |- count_type tsell (trades ?r) = 0%nat /\ _ =>
      assert (H3 : count_type tsell (trades r) = 0%nat) by reflexivity;
      destruct (no_sell_zero_statistics sqrt_approx strategy true
                  never_paused dip (dec 1000 1) r H1) as (Ha & Hb & _);
      [vm_compute; reflexivity | exact H3 |];
      split; [exact H3|]; split; [reflexivity|];
      split; [exact Ha | exact Hb]
  end.
Defined.

(** X28 on the first 26 candles of the round trip. *)
Lemma short_series_empty_result_witness :
  let data := firstn 26 round_trip in
  data <> [] /\
  (Z.of_nat (length data) <= Z.max (rsiPeriod strategy + 1) 26)%Z /\
  exists r,
    returned (backtest sqrt_approx strategy (Array data) (dec 1000 1) true
                       never_paused) = inr r /\
    trades r = [] /\ equity r = [dec 1000 1]%list.
Proof.
  intros data.
  assert (H1 : data <> []) by (vm_compute; discriminate).
  assert (H2 : (Z.of_nat (length data)
                <= Z.max (rsiPeriod strategy + 1) 26)%Z)
    by (vm_compute; discriminate).
  split; [exact H1|]. split; [exact H2|].
  destruct (short_series_empty_result sqrt_approx strategy true never_paused
              data (dec 1000 1) H1 H2) as (_ & _ & r & Hr & Ht & He & _).
  exists r. split; [exact Hr|]. split; [exact Ht | exact He].
Defined.

(** X29 on the round trip: the buy at index 26. *)
Lemma trades_come_from_candles_witness :
  exists r t,
    returned (backtest sqrt_approx strategy (Array round_trip) (dec 1000 1)
                       true never_paused) = inr r /\
    In t (trades r) /\ type t = tbuy /\
    exists i d, nth_error round_trip i = Some (Some d) /\
      price t = close d /\ t_timestamp t = timestamp d.
Proof.
  eexists. eexists. split; [vm_compute; reflexivity|].
  split; [left; reflexivity|]. split; [reflexivity|].
  refine (proj1 (trades_come_from_candles sqrt_approx strategy true
                   never_paused round_trip (dec 1000 1) _ _ _ _)).
  - vm_compute. reflexivity.
  - left. reflexivity.
Defined.

(** X30 on the round trip, paused for two polls before index 30: two
    paused notices and at most one snapshot name that index. *)
Lemma callback_calls_witness :
  let polls := fun i => if (i =? 30)%nat then 2%nat else 0%nat in
  let calls :=
    progress (backtest sqrt_approx strategy (Array round_trip) (dec 1000 1)
                       true polls) in
  round_trip <> [] /\ In 30%nat (indices strategy round_trip) /\
  length (calls_at 30 true calls) = 2%nat /\
  (length (calls_at 30 false calls) <= 1)%nat.
Proof.
  intros polls calls.
  assert (H : round_trip <> []) by discriminate.
  assert (Hi : In 30%nat (indices strategy round_trip))
    by (vm_compute; do 4 right; left; reflexivity).
  split; [exact H|]. split; [exact Hi|].
  exact (proj1 (callback_calls sqrt_approx strategy polls round_trip
                  (dec 1000 1) H) 30%nat Hi).
Defined.
